(** * Remsh: a remote shell server and client

    A shallow embedding of [src/src/server.cpp], [src/src/client.cpp] and
    [src/include/vprint.h].

    Each process is a record of its globals, [errno], the text written to
    its two output streams and the system calls it issued.  Everything the
    operating system answers (what [ppoll], [accept], [fork], [recv],
    [popen], [send], [read], [write] and [waitpid] return, and when a
    SIGCHLD is delivered) is an input of the model: a list of events, one
    per call or loop iteration, consumed in order.  A process that has
    consumed all of its events is still blocked in its loop. *)

From Stdlib Require Import List ZArith Lia Bool Ascii String DecimalString.
Import ListNotations.

Local Open Scope string_scope.
Local Open Scope Z_scope.

(** Raw bytes: socket payloads, pipe contents, C buffers. *)
Definition bytes : Type := list ascii.

Definition NUL : ascii := "000"%char.
Definition LF : ascii := "010"%char.
Definition nl : string := String LF EmptyString.

Definition b (s : string) : bytes := list_ascii_of_string s.
Definition text (l : bytes) : string := string_of_list_ascii l.

(** ** The C library, as far as the programs use it *)

Module Libc.

Definition EINTR : Z := 4.
Definition ECHILD : Z := 10.
Definition EPIPE : Z := 32.
Definition ERANGE : Z := 34.

Definition POLLIN : Z := 1.
Definition POLLHUP : Z := 16.

Definition SIGSEGV : Z := 11.
Definition SIGPIPE : Z := 13.
Definition SIGCHLD : Z := 17.
Definition SHUT_RDWR : Z := 2.

Definition EXIT_SUCCESS : Z := 0.
Definition EXIT_FAILURE : Z := 1.

(** [unsigned long] on LP64. *)
Definition ULONG_MAX : Z := 2 ^ 64 - 1.

(** Two's complement [int]. *)
Definition wrap_int (z : Z) : Z := (z + 2 ^ 31) mod 2 ^ 32 - 2 ^ 31.

(** The C string held by a buffer: the bytes before the first NUL. *)
Fixpoint cstr (buf : bytes) : bytes :=
  match buf with
  | [] => []
  | c :: rest => if Ascii.eqb c NUL then [] else c :: cstr rest
  end.

Definition isspace (c : ascii) : bool :=
  let n := Z.of_nat (nat_of_ascii c) in
  (n =? 32) || ((9 <=? n) && (n <=? 13)).

Definition digit (c : ascii) : option Z :=
  let n := Z.of_nat (nat_of_ascii c) in
  if (48 <=? n) && (n <=? 57) then Some (n - 48) else None.

Fixpoint skip_spaces (s : bytes) : bytes :=
  match s with
  | c :: rest => if isspace c then skip_spaces rest else s
  | [] => []
  end.

(** The digit loop of [strtoul]: the value so far and whether it has
    left the range of [unsigned long]. *)
Fixpoint strtoul_digits (s : bytes) (acc : Z) (overflow : bool) : Z * bool :=
  match s with
  | c :: rest =>
      match digit c with
      | Some d =>
          if overflow then strtoul_digits rest acc true
          else if ULONG_MAX <? acc * 10 + d
               then strtoul_digits rest acc true
               else strtoul_digits rest (acc * 10 + d) false
      | None => (acc, overflow)
      end
  | [] => (acc, overflow)
  end.

(** [strtoul(s, NULL, 10)]: the value, and [errno] afterwards.  Leading
    white space and one sign are skipped, the digits that follow are
    read and the rest of the string is ignored; with no digit at all
    the value is 0 and [errno] is left alone. *)
Definition strtoul (s : string) (errno : Z) : Z * Z :=
  let s1 := skip_spaces (b s) in
  let '(negative, s2) :=
    match s1 with
    | c :: rest =>
        if Ascii.eqb c "-"%char then (true, rest)
        else if Ascii.eqb c "+"%char then (false, rest)
        else (false, s1)
    | [] => (false, s1)
    end in
  let '(v, overflow) := strtoul_digits s2 0 false in
  if overflow then (ULONG_MAX, ERANGE)
  else if negative then ((- v) mod 2 ^ 64, errno)
  else (v, errno).

(** A stream opened for reading: what is left of it and its
    end-of-file indicator. *)
Record FILE := mkFILE { f_rest : bytes; f_eof : bool }.

Definition feof (f : FILE) : bool := f_eof f.

(** Read at most [k] bytes, stopping after a newline; running into the
    end of the stream sets the indicator. *)
Fixpoint fgets_read (k : nat) (s : bytes) : bytes * FILE :=
  match k with
  | O => ([], mkFILE s false)
  | S k' =>
      match s with
      | [] => ([], mkFILE [] true)
      | c :: rest =>
          if Ascii.eqb c LF then ([c], mkFILE rest false)
          else let '(line, f) := fgets_read k' rest in (c :: line, f)
      end
  end.

(** [fgets(buffer, n, f)]: [None] is the NULL it returns when nothing
    could be read. *)
Definition fgets (n : Z) (f : FILE) : option bytes * FILE :=
  let '(line, f') := fgets_read (Z.to_nat (n - 1)) (f_rest f) in
  match line with
  | [] => (None, f')
  | _ => (Some line, f')
  end.

(** [printf("%d", n)]. *)
Definition decimal (n : Z) : string := NilZero.string_of_int (Z.to_int n).

End Libc.

Import Libc.

(** ** Processes *)

Record addrinfo := mkAddr { ai_addr : string; ai_port : Z }.

(** The system calls a process issues that the rest of the world can
    see, in the order it issues them. *)
Inductive syscall :=
| Socket (a : addrinfo)
| Bind (fd : Z) (a : addrinfo)
| Listen (fd backlog : Z)
| Connect (fd : Z) (a : addrinfo)
| Accept (fd : Z)
| Fork
| Popen (command : bytes)
| Send (fd : Z) (data : bytes)
| Write (fd : Z) (data : bytes)
| Delete (what : string)
| Shutdown (fd how : Z)
| Close (fd : Z)
| Kill (pid sig : Z)
| Waitpid.

(** The globals of the program ([vprint.h] declares [verboseOutput]
    extern, each program defines it), [errno], and what the process has
    written and done so far. *)
Record process := mkProcess {
  serverpid : Z;
  actvConns : Z;
  verboseOutput : bool;
  stillHandlingRequests : bool;
  errno : Z;
  stdout : list string;
  stderr : list string;
  calls : list syscall
}.

Definition set_serverpid (v : Z) (p : process) : process :=
  mkProcess v (actvConns p) (verboseOutput p) (stillHandlingRequests p)
            (errno p) (stdout p) (stderr p) (calls p).
Definition set_actvConns (v : Z) (p : process) : process :=
  mkProcess (serverpid p) v (verboseOutput p) (stillHandlingRequests p)
            (errno p) (stdout p) (stderr p) (calls p).
Definition set_verboseOutput (v : bool) (p : process) : process :=
  mkProcess (serverpid p) (actvConns p) v (stillHandlingRequests p)
            (errno p) (stdout p) (stderr p) (calls p).
Definition set_stillHandlingRequests (v : bool) (p : process) : process :=
  mkProcess (serverpid p) (actvConns p) (verboseOutput p) v
            (errno p) (stdout p) (stderr p) (calls p).
Definition set_errno (v : Z) (p : process) : process :=
  mkProcess (serverpid p) (actvConns p) (verboseOutput p)
            (stillHandlingRequests p) v (stdout p) (stderr p) (calls p).

(** [cout << s] and [printf]; writing to a stream succeeds and leaves
    [errno] alone. *)
Definition cout (s : string) (p : process) : process :=
  mkProcess (serverpid p) (actvConns p) (verboseOutput p)
            (stillHandlingRequests p) (errno p) (stdout p ++ [s])%list (stderr p)
            (calls p).
(** [cerr << s] and [perror]. *)
Definition cerr (s : string) (p : process) : process :=
  mkProcess (serverpid p) (actvConns p) (verboseOutput p)
            (stillHandlingRequests p) (errno p) (stdout p) (stderr p ++ [s])%list
            (calls p).
Definition perror (s : string) (p : process) : process :=
  cerr (s ++ ": errno " ++ decimal (errno p) ++ nl) p.
Definition sys (c : syscall) (p : process) : process :=
  mkProcess (serverpid p) (actvConns p) (verboseOutput p)
            (stillHandlingRequests p) (errno p) (stdout p) (stderr p)
            (calls p ++ [c])%list.

(** [vprint.h]: the message is already formatted; its arguments were
    evaluated by the caller before the call. *)
Definition verboseprint (message : string) (p : process) : process :=
  if negb (verboseOutput p) then p else cout message p.

(** How a run of [main] stands: it returned, it called [abort], a signal
    killed it, or it is still blocked in a loop after the last event it
    was given. *)
Inductive outcome :=
| Exited (status : Z)
| Aborted
| Killed (sig : Z)
| Blocked.

(** One return of [getopt]: the option character and [optarg] (for the
    server's ['?'], see [Server.parse_options]). *)
Definition option_arg := (ascii * string)%type.

(** ** [ppoll]

    One return of [ppoll] on a single descriptor.  SIGCHLD is blocked in
    the server and in every worker forked from it, and the mask handed to
    [ppoll] is empty, so the handler installed by [main] runs inside this
    call and nowhere else; a wait that is cut short by it returns -1 with
    [errno] set to EINTR and no event reported.  A wait that times out
    reports no event either, and one that fails leaves [revents] as it
    was. *)
Inductive ppoll_event :=
| Ready (revents : Z)
| TimedOut
| Interrupted
| Failed (e : Z).

(** ** server.cpp *)

Module Server.

Definition BUFFERSIZE : Z := 512.

Definition start : process :=
  mkProcess 0 0 false true 0 [] [] [].

(** The help text, shortened to its first line. *)
Definition usage (name : string) (p : process) : process :=
  cout (name ++ ": [-p port] [-v]" ++ nl) p.

Definition sigchld_handler (signum : Z) (p : process) : process :=
  let p := set_actvConns (wrap_int (actvConns p - 1)) p in
  if actvConns p =? 0 then set_stillHandlingRequests false p else p.

(** What the call returns, what the [revents] field holds afterwards,
    and the process after it. *)
Definition ppoll (ev : ppoll_event) (revents : Z) (p : process)
  : Z * Z * process :=
  match ev with
  | Ready r => (1, r, p)
  | TimedOut => (0, 0, p)
  | Interrupted => (-1, 0, set_errno EINTR (sigchld_handler SIGCHLD p))
  | Failed e => (-1, revents, set_errno e p)
  end.

(** *** The worker *)

(** [recv] fails with an [errno], or stores [data] and returns its
    length, which is 0 when the peer has shut down its sending side. *)
Inductive recv_ret :=
| RecvError (e : Z)
| RecvBytes (data : bytes).

Inductive popen_ret :=
| PopenNull (e : Z)
| PopenPipe (output : bytes).

(** [SendError EPIPE] is the [send] to a connection that the peer has
    closed: see [killed_by]. *)
Inductive send_ret :=
| SendError (e : Z)
| SendCount (n : Z).

(** One turn of the worker's loop: the return of [ppoll], and what
    [recv], [popen] and [send] answer if the turn gets to them. *)
Record session_event := mkSession {
  s_poll : ppoll_event;
  s_recv : recv_ret;
  s_popen : popen_ret;
  s_send : send_ret
}.

(** The loop that fills [result] from the pipe.  Every turn takes a
    byte from the stream or sets its end-of-file indicator, so the
    length of the stream bounds the turns; [None] means that [fuel]
    was too small. *)
Fixpoint read_pipe (fuel : nat) (pipe : FILE) (result : bytes)
  : option bytes :=
  if feof pipe then Some result
  else
    match fuel with
    | O => None
    | S fuel' =>
        match fgets BUFFERSIZE pipe with
        | (Some buffer, pipe') =>
            read_pipe fuel' pipe' (result ++ cstr buffer)%list
        | (None, pipe') => read_pipe fuel' pipe' result
        end
    end.

(** [result] when the loop is done with a pipe that carries [output]. *)
Definition captured (output : bytes) : bytes :=
  match read_pipe (S (List.length output)) (mkFILE output false) [] with
  | Some result => result
  | None => []
  end.

(** How the worker's loop ended: which [break] was taken, or
    [BrokenPipe] when SIGPIPE killed the worker inside [send]. *)
Inductive loop_exit :=
| PollError
| RecvEnded (bytesRead : Z)
| PopenError
| SendFailed
| HangUp
| BrokenPipe.

(** The signal that ends the worker with its loop, if any.

    [pipe] is a [shared_ptr] built from the pointer that [popen] returned
    and the deleter [pclose], and such a [shared_ptr] calls its deleter
    when it goes out of scope also when the pointer is null: the [break]
    after a failed [popen] leaves the scope of [pipe] and so runs
    [pclose(NULL)], which dereferences the null pointer.

    [send] is called without MSG_NOSIGNAL and the worker neither blocks
    nor handles SIGPIPE: on a connection that the peer has closed, the
    call that would fail with EPIPE raises the signal instead of
    returning. *)
Definition killed_by (why : loop_exit) : option Z :=
  match why with
  | PopenError => Some SIGSEGV
  | BrokenPipe => Some SIGPIPE
  | _ => None
  end.

Fixpoint request_loop (sessFD : Z) (events : list session_event)
         (revents : Z) (p : process) : option loop_exit * process :=
  match events with
  | [] => (None, p)
  | ev :: rest =>
      let '(pollval, revents, p) := ppoll (s_poll ev) revents p in
      if (pollval =? -1) && negb (errno p =? EINTR) then
        (Some PollError, perror "Error with ppoll() in handle_request()" p)
      else if negb (Z.land revents POLLIN =? 0) then
        let '(bytesRead, buffer, p) :=
          match s_recv ev with
          | RecvError e => (-1, [], set_errno e p)
          | RecvBytes data => (Z.of_nat (List.length data), data, p)
          end in
        if bytesRead <=? 0 then (Some (RecvEnded bytesRead), p)
        else
          let buffer := (buffer ++ [NUL])%list in
          let p := verboseprint
                     ("Read from client was: " ++ text (cstr buffer) ++ nl) p in
          let p := sys (Popen (cstr buffer)) p in
          match s_popen ev with
          | PopenNull e => (Some PopenError, perror "popen()" (set_errno e p))
          | PopenPipe output =>
              let result := captured output in
              let p := sys (Send sessFD (result ++ [NUL])%list) p in
              match s_send ev with
              | SendError e =>
                  if e =? EPIPE then (Some BrokenPipe, p)
                  else (Some SendFailed,
                        perror "Error in write()" (set_errno e p))
              | SendCount n =>
                  if n <? 0 then (Some SendFailed, perror "Error in write()" p)
                  else request_loop sessFD rest revents p
              end
          end
      else if negb (Z.land revents POLLHUP =? 0) then (Some HangUp, p)
      else request_loop sessFD rest revents p
  end.

(** What follows the loop. *)
Definition teardown (sessFD : Z) (host service : string) (p : process)
  : process :=
  let p := verboseprint
             ("Terminating connection from " ++ host ++ ":" ++ service ++ nl)
             p in
  let p := sys (Delete "host") p in
  let p := sys (Delete "service") p in
  let p := sys (Shutdown sessFD SHUT_RDWR) p in
  let p := sys (Close sessFD) p in
  sys (Kill (serverpid p) SIGCHLD) p.

(** [None]: the worker is still in its loop.  A worker that a signal
    has killed does not get to what follows the loop. *)
Definition handle_request (sessFD : Z) (host service : string)
           (events : list session_event) (p : process)
  : option loop_exit * process :=
  match request_loop sessFD events 0 p with
  | (Some why, p) =>
      match killed_by why with
      | Some _ => (Some why, p)
      | None => (Some why, teardown sessFD host service p)
      end
  | (None, p) => (None, p)
  end.

(** *** The admission loop *)

Inductive fork_ret :=
| ForkError (e : Z)
| ForkChild (session : list session_event)
| ForkParent (pid : Z).

Inductive accept_ret :=
| AcceptError (e : Z)
| Accepted (sessFD : Z) (peer : option (string * string)) (f : fork_ret).

(** One turn of the main loop: the return of [ppoll], and what
    [accept], [getnameinfo] and [fork] answer if the turn gets to them.
    In the child, [fork] carries the events of the session it then
    serves. *)
Definition listen_event := (ppoll_event * accept_ret)%type.

Inductive loop_end :=
| LoopBreak
| LoopAbort
| LoopReturn (status : Z)
| LoopKilled (sig : Z)
| LoopBlocked.

Fixpoint main_loop (connectFD : Z) (events : list listen_event)
         (p : process) : loop_end * process :=
  match events with
  | [] => (LoopBlocked, p)
  | (w, a) :: rest =>
      let '(pollval, _, p) := ppoll w 0 p in
      if errno p =? EINTR then (LoopBreak, p)
      else if pollval =? -1 then (LoopBreak, perror "Error in ppoll()" p)
      else if pollval >? 0 then
        let p := sys (Accept connectFD) p in
        match a with
        | AcceptError e => (LoopBreak, perror "Accept" (set_errno e p))
        | Accepted sessFD peer f =>
            let '(host, service, p) :=
              match peer with
              | Some (h, s) => (h, s, p)
              | None => ("UnkownHost", "UnkownPort",
                         cerr ("Error in getnameinfo()" ++ nl) p)
              end in
            let p := verboseprint
                       ("Received connection from " ++ host ++ ":" ++ service
                        ++ "." ++ nl) p in
            let p := sys Fork p in
            match f with
            | ForkError e =>
                (LoopAbort,
                 cerr ("Could not fork process. Aborting." ++ nl)
                      (set_errno e p))
            | ForkChild session =>
                match handle_request sessFD host service session p with
                | (Some why, p) =>
                    match killed_by why with
                    | Some sig => (LoopKilled sig, p)
                    | None => (LoopReturn EXIT_SUCCESS, p)
                    end
                | (None, p) => (LoopBlocked, p)
                end
            | ForkParent pid =>
                (* the argument [++actvConns] is evaluated, then
                   [verboseprint] is called *)
                let p := set_actvConns (wrap_int (actvConns p + 1)) p in
                let p := verboseprint
                           ("Active connections: " ++ decimal (actvConns p)
                            ++ nl) p in
                main_loop connectFD rest p
            end
        end
      else if negb (stillHandlingRequests p) then (LoopBreak, p)
      else main_loop connectFD rest p
  end.

(** The [waitpid] loop after the main loop; an event is the pid
    returned and the [errno] set, if any.  [false]: still waiting. *)
Fixpoint reap (events : list (Z * option Z)) (p : process)
  : bool * process :=
  match events with
  | [] => (false, p)
  | (pid, e) :: rest =>
      let p := sys Waitpid p in
      let p := match e with Some e => set_errno e p | None => p end in
      if pid =? 0 then (true, p)
      else if errno p =? ECHILD then (true, p)
      else reap rest p
  end.

(** *** Start-up *)

Inductive parsed :=
| Port (port : string) (p : process)
| Return (status : Z) (p : process)
| Abort (p : process).

(** The [getopt] loop, over the returns of [getopt].  The option string
    is ["vhp:"] and [opterr] is never cleared, so [getopt] returns ['?']
    only after it has written a diagnostic of its own to the error
    stream: for ['?'], the second component of the return is that
    diagnostic. *)
Fixpoint parse_options (argv0 : string) (opts : list option_arg)
         (port : string) (p : process) : parsed :=
  match opts with
  | [] => Port port p
  | (opt, optarg) :: rest =>
      if Ascii.eqb opt "p"%char then
        let '(portAsLong, e) := strtoul optarg (errno p) in
        let p := set_errno e p in
        if (errno p =? ERANGE) || (portAsLong >? 65535) then
          Return EXIT_FAILURE (cerr ("Bad port, got: " ++ optarg ++ nl) p)
        else parse_options argv0 rest optarg p
      else if Ascii.eqb opt "h"%char then
        Return EXIT_SUCCESS (usage argv0 p)
      else if Ascii.eqb opt "v"%char then
        parse_options argv0 rest port (set_verboseOutput true p)
      else if Ascii.eqb opt "?"%char then
        Return EXIT_SUCCESS (usage argv0 (cerr optarg p))
      else Abort p
  end.

(** What the system answers at start-up. *)
Record environment := mkEnv {
  getpid : Z;
  sigprocmask : Z;
  getaddrinfo : string -> Z * list addrinfo;
  socket : addrinfo -> Z;
  bind : Z -> addrinfo -> Z
}.

(** The loop over the addresses: the descriptor bound, if any. *)
Fixpoint bind_first (env : environment) (addr : list addrinfo)
         (p : process) : option Z * process :=
  match addr with
  | [] => (None, p)
  | a :: next =>
      let connectFD := socket env a in
      let p := sys (Socket a) p in
      if connectFD =? -1 then bind_first env next p
      else
        let p := sys (Bind connectFD a) p in
        if bind env connectFD a =? 0 then (Some connectFD, p)
        else bind_first env next (sys (Close connectFD) p)
  end.

Record input := mkInput {
  argc : Z;
  argv0 : string;
  options : list option_arg;
  connections : list listen_event;
  children : list (Z * option Z)
}.

(** [main] from the first status message on. *)
Definition serve (env : environment) (inp : input) (port : string)
           (p : process) : outcome * process :=
  let p := verboseprint ("Starting server ..." ++ nl) p in
  let p := verboseprint
             ("Attempting to start service at port " ++ port ++ nl) p in
  let '(s, addrHead) := getaddrinfo env port in
  if negb (s =? 0) then
    (Exited EXIT_FAILURE, cerr ("Error in gettaddrinfo()" ++ nl) p)
  else
    match bind_first env addrHead p with
    | (None, p) => (Exited EXIT_FAILURE, perror "Could not bind" p)
    | (Some connectFD, p) =>
        let p := verboseprint
                   ("Service started. Listening on port " ++ port ++ nl) p in
        let p := sys (Listen connectFD 64) p in
        match main_loop connectFD (connections inp) p with
        | (LoopBlocked, p) => (Blocked, p)
        | (LoopAbort, p) => (Aborted, p)
        | (LoopReturn status, p) => (Exited status, p)
        | (LoopKilled sig, p) => (Killed sig, p)
        | (LoopBreak, p) =>
            match reap (children inp) p with
            | (false, p) => (Blocked, p)
            | (true, p) =>
                let p := verboseprint ("Shutting down server." ++ nl) p in
                let p := sys (Close connectFD) p in
                (Exited 0, p)
            end
        end
    end.

Definition main (env : environment) (inp : input) : outcome * process :=
  let p := set_serverpid (getpid env) start in
  if sigprocmask env <? 0 then (Exited EXIT_FAILURE, perror "sigprocmask()" p)
  else
    match (if argc inp >? 1
           then parse_options (argv0 inp) (options inp) "8888" p
           else Port "8888" p) with
    | Return status p => (Exited status, p)
    | Abort p => (Aborted, p)
    | Port port p => serve env inp port p
    end.

End Server.

(** ** client.cpp *)

Module Client.

Definition BUFFERSIZE : Z := 1024.

(** The client has one global, [verboseOutput]; the fields of the
    server's globals stay at zero. *)
Definition start : process :=
  mkProcess 0 0 false true 0 [] [] [].

(** The help text, shortened to its first line. *)
Definition usage (name : string) (p : process) : process :=
  cerr ("Usage: " ++ name ++ " -h host" ++ nl) p.

(** [read] fails with an [errno], or stores [data] and returns its
    length, which is 0 at the end of the stream. *)
Inductive read_ret :=
| ReadError (e : Z)
| ReadBytes (data : bytes).

(** How the inner loop ended: [return EXIT_FAILURE], a [break], or
    still blocked in [read]. *)
Inductive received :=
| ReadFailed
| Complete
| Waiting.

(** The inner loop: the returns of [read] left over, [bytesread], and
    the process. *)
Fixpoint receive (sessFD : Z) (reads : list read_ret) (bytesread : Z)
         (p : process) : received * list read_ret * Z * process :=
  match reads with
  | [] => (Waiting, [], bytesread, p)
  | r :: rest =>
      let '(thisreadn, buffer, p) :=
        match r with
        | ReadError e => (-1, [], set_errno e p)
        | ReadBytes data => (Z.of_nat (List.length data), data, p)
        end in
      if thisreadn <? 0 then
        (ReadFailed, rest, bytesread,
         cerr ("Did not read succesfully" ++ nl ++ ".") p)
      else if thisreadn =? 0 then (Complete, rest, bytesread, p)
      else
        let bytesread := wrap_int (bytesread + thisreadn) in
        let buffer := (buffer ++ [NUL])%list in
        let p := cout (text (cstr buffer)) p in
        let p := cout nl p in
        if Ascii.eqb (nth (Z.to_nat (thisreadn - 1)) buffer NUL) NUL
        then (Complete, rest, bytesread, p)
        else receive sessFD rest bytesread p
  end.

Inductive loop_end :=
| LoopBreak
| LoopReturn (status : Z)
| LoopBlocked.

(** The outer loop.  [stdin] holds the lines the user types, [writes]
    the returns of the calls to [write], [reads] those of [read]; at
    the end of [stdin], [getline] leaves [command] empty.  Only calls
    that return are events: a [write] that raises SIGPIPE has no return,
    and a run stands before it as it does at the end of [writes]. *)
Fixpoint command_loop (sessFD : Z) (noninteractive : bool)
         (writes : list Z) (stdin : list string) (reads : list read_ret)
         (command : string) (p : process) : loop_end * process :=
  let '(command, stdin, p) :=
    if negb noninteractive then
      let p := cout "$ " p in
      match stdin with
      | line :: rest => (line, rest, p)
      | [] => (EmptyString, [], p)
      end
    else (command, stdin, p) in
  if String.eqb command "exit" then (LoopBreak, p)
  else
    match writes with
    | [] => (LoopBlocked, p)
    | w :: writes' =>
        let p := sys (Write sessFD (b command ++ [NUL])%list) p in
        if w <? 0 then (LoopBreak, perror "Error in write() to server" p)
        else
          match receive sessFD reads 0 p with
          | (ReadFailed, _, _, p) => (LoopReturn EXIT_FAILURE, p)
          | (Waiting, _, _, p) => (LoopBlocked, p)
          | (Complete, reads', bytesread, p) =>
              let p := verboseprint
                         ("Received response from server of "
                          ++ decimal bytesread ++ " bytes" ++ nl) p in
              if noninteractive then (LoopBreak, p)
              else command_loop sessFD noninteractive writes' stdin reads'
                                command p
          end
    end.

(** *** Start-up *)

Record settings := mkSettings {
  host : string;
  service : string;
  command : string;
  noninteractive : bool
}.

Inductive parsed :=
| Go (s : settings) (p : process)
| Return (status : Z) (p : process)
| Abort (p : process).

Fixpoint parse_options (argv0 : string) (opts : list option_arg)
         (s : settings) (p : process) : parsed :=
  match opts with
  | [] => Go s p
  | (opt, optarg) :: rest =>
      if Ascii.eqb opt "h"%char then
        parse_options argv0 rest
          (mkSettings optarg (service s) (command s) (noninteractive s)) p
      else if Ascii.eqb opt "p"%char then
        let '(portAsLong, e) := strtoul optarg (errno p) in
        let p := set_errno e p in
        if (errno p =? ERANGE) || (portAsLong >? 65535) then
          Return EXIT_FAILURE (cerr ("Bad port, got: " ++ optarg ++ nl) p)
        else
          parse_options argv0 rest
            (mkSettings (host s) optarg (command s) (noninteractive s)) p
      else if Ascii.eqb opt "c"%char then
        parse_options argv0 rest
          (mkSettings (host s) (service s) optarg true) p
      else if Ascii.eqb opt "v"%char then
        parse_options argv0 rest s (set_verboseOutput true p)
      else if Ascii.eqb opt "?"%char then
        Return EXIT_SUCCESS (usage argv0 p)
      else if Ascii.eqb opt ":"%char then
        Return EXIT_FAILURE p
      else Abort p
  end.

Record environment := mkEnv {
  getaddrinfo : string -> string -> Z * list addrinfo;
  socket : addrinfo -> Z;
  connect : Z -> addrinfo -> Z
}.

(** The loop over the addresses; [i] counts the attempts. *)
Fixpoint connect_first (env : environment) (addr : list addrinfo) (i : Z)
         (p : process) : option Z * process :=
  match addr with
  | [] => (None, p)
  | a :: next =>
      let sessFD := socket env a in
      let p := sys (Socket a) p in
      if sessFD =? -1 then connect_first env next (wrap_int (i + 1)) p
      else
        let p := verboseprint
                   (String "009"%char "Attempt " ++ decimal i ++ " ... ") p in
        let p := sys (Connect sessFD a) p in
        if negb (connect env sessFD a =? -1) then
          (Some sessFD, verboseprint ("Success." ++ nl) p)
        else
          let p := verboseprint ("Failed." ++ nl) p in
          connect_first env next (wrap_int (i + 1)) (sys (Close sessFD) p)
  end.

Record input := mkInput {
  argc : Z;
  argv0 : string;
  options : list option_arg;
  stdin : list string;
  writes : list Z;
  reads : list read_ret
}.

(** What follows the outer loop. *)
Definition finish (sessFD : Z) (r : loop_end * process)
  : outcome * process :=
  match r with
  | (LoopBlocked, p) => (Blocked, p)
  | (LoopReturn status, p) => (Exited status, p)
  | (LoopBreak, p) =>
      let p := verboseprint ("Shutting down client..." ++ nl) p in
      let p := sys (Shutdown sessFD SHUT_RDWR) p in
      let p := sys (Close sessFD) p in
      (Exited EXIT_SUCCESS, p)
  end.

Definition main (env : environment) (inp : input) : outcome * process :=
  let p := set_verboseOutput true start in
  if argc inp <? 2 then (Exited EXIT_FAILURE, usage (argv0 inp) p)
  else
    match parse_options (argv0 inp) (options inp)
                        (mkSettings "127.0.0.1" "8888" EmptyString false) p with
    | Return status p => (Exited status, p)
    | Abort p => (Aborted, p)
    | Go s p =>
        let p := verboseprint ("Starting client ..." ++ nl) p in
        let '(r, addrHead) := getaddrinfo env (host s) (service s) in
        if negb (r =? 0) then
          (Exited EXIT_FAILURE, cerr ("Failed in getaddrinfo(). " ++ nl) p)
        else
          let p := verboseprint
                     ("Connecting to " ++ host s ++ ":" ++ service s ++ " ..."
                      ++ nl) p in
          match connect_first env addrHead 1 p with
          | (None, p) =>
              (Exited EXIT_FAILURE,
               cerr ("Could not connect to " ++ host s ++ ":" ++ service s
                     ++ nl) p)
          | (Some sessFD, p) =>
              finish sessFD
                (command_loop sessFD (noninteractive s) (writes inp)
                              (stdin inp) (reads inp) (command s) p)
          end
    end.

End Client.

(** * Inputs and vocabulary of the properties *)

Section Vocabulary.

Import Server.

(** A port argument as the help text asks for it: decimal digits and
    nothing else, with a value of at most 65535. *)
Fixpoint decimal_value (s : bytes) (acc : Z) : option Z :=
  match s with
  | [] => Some acc
  | c :: rest =>
      match digit c with
      | Some d => decimal_value rest (acc * 10 + d)
      | None => None
      end
  end.

Definition decimal_port (s : string) : option Z :=
  match b s with
  | [] => None
  | l =>
      match decimal_value l 0 with
      | Some v => if v <=? 65535 then Some v else None
      | None => None
      end
  end.

(** A system whose services database knows [http], as /etc/services
    does, and where sockets and [bind] succeed. *)
Definition with_services : environment :=
  mkEnv 1000 0
        (fun port =>
           if String.eqb port "http" then (0, [mkAddr "0.0.0.0" 80])
           else match decimal_port port with
                | Some n => (0, [mkAddr "0.0.0.0" n])
                | None => (-8, [])
                end)
        (fun _ => 3)
        (fun _ _ => 0).

(** A client connects and the parent returns from [fork]. *)
Definition connection (sessFD pid : Z) : listen_event :=
  (Ready POLLIN, Accepted sessFD (Some ("localhost", "40000")) (ForkParent pid)).

(** A SIGCHLD arrives during the wait. *)
Definition child_signal : listen_event := (Interrupted, AcceptError 0).

Definition timeout : listen_event := (TimedOut, AcceptError 0).

Definition plain : environment :=
  mkEnv 1000 0 (fun port => (0, [mkAddr "0.0.0.0" 8888]))
        (fun _ => 3) (fun _ _ => 0).

(** The calls a worker issues from inside its loop. *)
Definition session_call (c : syscall) : Prop :=
  match c with
  | Popen _ | Send _ _ => True
  | _ => False
  end.

(** A turn of the worker in which [ppoll] reports [revents] and the
    calls that follow succeed: [data] arrives, the command prints
    [output], [send] takes the whole response. *)
Definition request (revents : Z) (data output : bytes) : session_event :=
  mkSession (Ready revents) (RecvBytes data) (PopenPipe output)
            (SendCount (Z.of_nat (List.length (captured output)) + 1)).

(** The peer has shut down its sending side: the socket is readable and
    [recv] returns 0. *)
Definition end_of_input : session_event := request POLLIN [] [].

(** A turn that leaves the worker waiting: the wait timed out, or a
    SIGCHLD cut it short. *)
Definition idle (ev : session_event) : Prop :=
  s_poll ev = TimedOut \/ s_poll ev = Interrupted.

(** A turn in which the worker learns that the peer is gone without
    having received a byte: [recv] returns 0, or only POLLHUP is
    reported. *)
Definition peer_gone (ev : session_event) : Prop :=
  exists revents,
    s_poll ev = Ready revents /\
    ((Z.land revents POLLIN <> 0 /\ s_recv ev = RecvBytes []) \/
     (Z.land revents POLLIN = 0 /\ Z.land revents POLLHUP <> 0)).

(** What the worker does once it has left its loop. *)
Definition teardown_calls (sessFD serverpid : Z) : list syscall :=
  [Delete "host"; Delete "service"; Shutdown sessFD SHUT_RDWR; Close sessFD;
   Kill serverpid SIGCHLD].

Definition has_sentinel (data : bytes) : bool := existsb (Ascii.eqb NUL) data.

Definition sent_to (sessFD : Z) (c : syscall) : bool :=
  match c with
  | Send fd _ => fd =? sessFD
  | _ => false
  end.

(** What the client writes for the chunks it reads: each one as a C
    string, then a newline. *)
Definition echoed (chunks : list bytes) : list string :=
  flat_map (fun c => [text (cstr c); nl]) chunks.

(** The process after these writes. *)
Definition echo (chunks : list bytes) (p : process) : process :=
  fold_left (fun q c => cout nl (cout (text (cstr c)) q)) chunks p.

(** The text a process has put on its standard output. *)
Definition shown (p : process) : string := String.concat EmptyString (stdout p).

(** Two processes that differ at most in [verboseOutput] and in what
    they have written to standard output. *)
Definition same_behaviour (p q : process) : Prop :=
  serverpid p = serverpid q /\
  actvConns p = actvConns q /\
  stillHandlingRequests p = stillHandlingRequests q /\
  errno p = errno q /\
  stderr p = stderr q /\
  calls p = calls q.

(** *** One command over the wire

    The client is started with [-c "echo 42"]; the server has no other
    client.  The shell prints [42] and a newline for the command, and
    each side reads in one piece what the other has written. *)

Definition loopback : Client.environment :=
  Client.mkEnv (fun h s => (0, [mkAddr h 8888])) (fun _ => 3) (fun _ _ => 0).

Definition echo_request : bytes := (b "echo 42" ++ [NUL])%list.
Definition echo_output : bytes := (b "42" ++ [LF])%list.
Definition echo_response : bytes := (echo_output ++ [NUL])%list.

Definition echo_client : Client.input :=
  Client.mkInput 3 "client" [("c"%char, "echo 42"%string)] [] [8]
                 [Client.ReadBytes echo_response].

Definition echo_session : list session_event :=
  [request POLLIN echo_request echo_output; end_of_input].

(** The server's main loop as the child runs it after [fork], and as
    the parent does. *)
Definition echo_worker : input :=
  mkInput 1 "server" []
          [(Ready POLLIN,
            Accepted 4 (Some ("localhost"%string, "40000"%string))
                     (ForkChild echo_session))]
          [].

Definition echo_server : input :=
  mkInput 1 "server" [] [connection 4 101; child_signal]
          [(101, None); (-1, Some ECHILD)].

(** A call of the worker's loop over [events]: a [popen], or a [send] on
    the session descriptor of what was captured from one of the pipes
    followed by one NUL. *)
Definition response_call (sessFD : Z) (events : list session_event)
           (c : syscall) : Prop :=
  match c with
  | Popen _ => True
  | Send fd response =>
      fd = sessFD /\
      exists output,
        In (PopenPipe output) (map s_popen events) /\
        response = (captured output ++ [NUL])%list
  | _ => False
  end.

(** A turn in which [popen] returns NULL, with [errno] set to EMFILE. *)
Definition failed_popen : session_event :=
  mkSession (Ready POLLIN) (RecvBytes (b "ls")) (PopenNull 24) (SendCount 0).

(** A turn in which the response goes to a peer that has closed the
    connection. *)
Definition closed_peer : session_event :=
  mkSession (Ready POLLIN) (RecvBytes (b "ls")) (PopenPipe (b "a"))
            (SendError EPIPE).

(** The server's main loop as the child runs it after [fork], on a
    session in which [popen] fails. *)
Definition failed_popen_worker : input :=
  mkInput 1 "server" []
          [(Ready POLLIN,
            Accepted 4 (Some ("localhost"%string, "40000"%string))
                     (ForkChild [failed_popen]))]
          [].

Definition written_to (sessFD : Z) (c : syscall) : bool :=
  match c with
  | Write fd _ => fd =? sessFD
  | _ => false
  end.

(** The same command line with [-v] added at its end. *)
Definition with_v (inp : input) : input :=
  mkInput (argc inp + 1) (argv0 inp)
          (if argc inp >? 1 then (options inp ++ [("v"%char, EmptyString)])%list
           else [("v"%char, EmptyString)])
          (connections inp) (children inp).

Definition is_close (c : syscall) : bool :=
  match c with
  | Close _ => true
  | _ => false
  end.

Definition is_kill (c : syscall) : bool :=
  match c with
  | Kill _ _ => true
  | _ => false
  end.

(** *** Vocabulary of the start-up properties *)

(** The first option that is neither [-p] nor [-v]. *)
Fixpoint first_other (opts : list option_arg) : option option_arg :=
  match opts with
  | [] => None
  | (opt, optarg) :: rest =>
      if Ascii.eqb opt "p" || Ascii.eqb opt "v" then first_other rest
      else Some (opt, optarg)
  end.

(** An argument in which [strtoul] finds no number: it is empty, or its
    first byte is neither white space, nor a sign, nor a digit. *)
Definition no_number (s : string) : bool :=
  match b s with
  | [] => true
  | c :: _ =>
      negb (isspace c) && negb (Ascii.eqb c "-"%char)
      && negb (Ascii.eqb c "+"%char)
      && match digit c with Some _ => false | None => true end
  end.

(** An option the server goes on after: [-v], or [-p] with a decimal
    port. *)
Definition goes_on (o : option_arg) : bool :=
  Ascii.eqb (fst o) "v"%char
  || (Ascii.eqb (fst o) "p"%char
      && match decimal_port (snd o) with Some _ => true | None => false end).

(** The argument of the last [-p], and whether there is a [-v]. *)
Definition last_port (opts : list option_arg) (port : string) : string :=
  fold_left (fun port o => if Ascii.eqb (fst o) "p"%char then snd o else port)
            opts port.

Definition asks_verbose (opts : list option_arg) : bool :=
  existsb (fun o => Ascii.eqb (fst o) "v"%char) opts.

(** The calls of a turn of the loop over the addresses that does not end
    it: [socket] failed, or [bind] did and the socket is closed again. *)
Definition bind_fails (env : environment) (a : addrinfo) : bool :=
  (socket env a =? -1) || negb (bind env (socket env a) a =? 0).

Definition bind_attempt (env : environment) (a : addrinfo) : list syscall :=
  if socket env a =? -1 then [Socket a]
  else [Socket a; Bind (socket env a) a; Close (socket env a)].

Definition is_listen (c : syscall) : bool :=
  match c with
  | Listen _ _ => true
  | _ => false
  end.

(** *** Vocabulary of the main loop *)

(** A turn in which the parent admits a client; one in which the wait
    times out; one that is not the child's return from [fork]. *)
Definition admits (ev : listen_event) : bool :=
  match ev with
  | (Ready _, Accepted _ _ (ForkParent _)) => true
  | _ => false
  end.

Definition times_out (ev : listen_event) : bool :=
  match ev with
  | (TimedOut, _) => true
  | _ => false
  end.

Definition in_parent (ev : listen_event) : bool :=
  match ev with
  | (_, Accepted _ _ (ForkChild _)) => false
  | _ => true
  end.

Definition admission_calls (connectFD : Z) (events : list listen_event)
  : list syscall :=
  flat_map (fun ev => if admits ev then [Accept connectFD; Fork] else [])
           events.

(** The returns of [waitpid] for children that are reaped one by one. *)
Definition reaped (pids : list Z) : list (Z * option Z) :=
  map (fun pid => (pid, None)) pids.

(** *** Vocabulary of the sessions *)

(** A session of requests, each with the bytes received and the output
    of the command, and what the worker calls for them. *)
Definition requests (reqs : list (bytes * bytes)) : list session_event :=
  map (fun r => request POLLIN (fst r) (snd r)) reqs.

Definition served (sessFD : Z) (reqs : list (bytes * bytes)) : list syscall :=
  flat_map (fun r => [Popen (cstr (fst r));
                      Send sessFD (captured (snd r) ++ [NUL])%list]) reqs.

(** What the worker passes to [perror] when it leaves its loop. *)
Definition complaint (why : loop_exit) : option string :=
  match why with
  | PollError => Some "Error with ppoll() in handle_request()"
  | PopenError => Some "popen()"
  | SendFailed => Some "Error in write()"
  | RecvEnded _ | HangUp | BrokenPipe => None
  end.

Definition complaint_lines (why : loop_exit) (e : Z) : list string :=
  match complaint why with
  | Some s => [s ++ ": errno " ++ decimal e ++ nl]
  | None => []
  end.

(** *** Vocabulary of the client *)

(** A chunk after which the client reads on: it is not empty and its
    last byte is not NUL. *)
Definition reads_on (c : bytes) : bool :=
  match rev c with
  | [] => false
  | x :: _ => negb (Ascii.eqb x NUL)
  end.

(** One turn of an interactive session: the line typed, the return of
    [write], and the response without its sentinel. *)
Definition turn := (string * Z * bytes)%type.
Definition typed (t : turn) : string := fst (fst t).
Definition write_ret (t : turn) : Z := snd (fst t).
Definition answer (t : turn) : bytes := snd t.

Definition turn_ok (t : turn) : bool :=
  negb (String.eqb (typed t) "exit") && (0 <=? write_ret t).

(** A command on the wire. *)
Definition wire (sessFD : Z) (command : string) : syscall :=
  Write sessFD (b command ++ [NUL])%list.

Definition connect_fails (env : Client.environment) (a : addrinfo) : bool :=
  (Client.socket env a =? -1)
  || (Client.connect env (Client.socket env a) a =? -1).

Definition connect_attempt (env : Client.environment) (a : addrinfo)
  : list syscall :=
  if Client.socket env a =? -1 then [Socket a]
  else [Socket a; Connect (Client.socket env a) a;
        Close (Client.socket env a)].

End Vocabulary.

(** * Properties *)

Local Open Scope list_scope.

Lemma set_errno_same p : set_errno (errno p) p = p.
Proof. destruct p; reflexivity. Qed.

(** ** What the primitive steps leave alone *)

Section Frames.

Import Server.

Lemma verboseprint_calls m p : calls (verboseprint m p) = calls p.
Proof. unfold verboseprint. destruct (negb _); reflexivity. Qed.

Lemma verboseprint_stderr m p : stderr (verboseprint m p) = stderr p.
Proof. unfold verboseprint. destruct (negb _); reflexivity. Qed.

Lemma verboseprint_serverpid m p : serverpid (verboseprint m p) = serverpid p.
Proof. unfold verboseprint. destruct (negb _); reflexivity. Qed.

Lemma verboseprint_errno m p : errno (verboseprint m p) = errno p.
Proof. unfold verboseprint. destruct (negb _); reflexivity. Qed.

Lemma verboseprint_actvConns m p : actvConns (verboseprint m p) = actvConns p.
Proof. unfold verboseprint. destruct (negb _); reflexivity. Qed.

Lemma verboseprint_flag m p :
  stillHandlingRequests (verboseprint m p) = stillHandlingRequests p.
Proof. unfold verboseprint. destruct (negb _); reflexivity. Qed.

Lemma verboseprint_verbose m p :
  verboseOutput (verboseprint m p) = verboseOutput p.
Proof. unfold verboseprint. destruct (negb _); reflexivity. Qed.

Lemma verboseprint_quiet m p :
  verboseOutput p = false -> verboseprint m p = p.
Proof. unfold verboseprint. intros ->. reflexivity. Qed.

Lemma handler_calls n p : calls (sigchld_handler n p) = calls p.
Proof. unfold sigchld_handler. simpl. destruct (_ =? 0); reflexivity. Qed.

Lemma handler_stderr n p : stderr (sigchld_handler n p) = stderr p.
Proof. unfold sigchld_handler. simpl. destruct (_ =? 0); reflexivity. Qed.

Lemma handler_stdout n p : stdout (sigchld_handler n p) = stdout p.
Proof. unfold sigchld_handler. simpl. destruct (_ =? 0); reflexivity. Qed.

Lemma handler_serverpid n p : serverpid (sigchld_handler n p) = serverpid p.
Proof. unfold sigchld_handler. simpl. destruct (_ =? 0); reflexivity. Qed.

Lemma handler_verbose n p :
  verboseOutput (sigchld_handler n p) = verboseOutput p.
Proof. unfold sigchld_handler. simpl. destruct (_ =? 0); reflexivity. Qed.

Lemma handler_errno n p : errno (sigchld_handler n p) = errno p.
Proof. unfold sigchld_handler. simpl. destruct (_ =? 0); reflexivity. Qed.

Lemma handler_actvConns n p :
  actvConns (sigchld_handler n p) = wrap_int (actvConns p - 1).
Proof. unfold sigchld_handler. simpl. destruct (_ =? 0); reflexivity. Qed.

Lemma handler_flag n p :
  stillHandlingRequests (sigchld_handler n p)
  = if wrap_int (actvConns p - 1) =? 0 then false
    else stillHandlingRequests p.
Proof. unfold sigchld_handler. simpl. destruct (_ =? 0); reflexivity. Qed.

End Frames.

Create Rewrite HintDb frame.

#[local] Hint Rewrite
  verboseprint_calls verboseprint_stderr verboseprint_serverpid
  verboseprint_errno verboseprint_actvConns verboseprint_flag
  verboseprint_verbose
  handler_calls handler_stderr handler_stdout handler_serverpid
  handler_verbose handler_errno handler_actvConns handler_flag : frame.

(** ** The port option *)

Section PortOption.

Import Server.

Lemma digit_range c d : digit c = Some d -> 0 <= d <= 9.
Proof.
  unfold digit. destruct ((_ <=? _) && _) eqn:E; [|discriminate].
  intros [= <-]. apply andb_prop in E. lia.
Qed.

Lemma digit_not_space c d : digit c = Some d -> isspace c = false.
Proof.
  unfold digit, isspace. destruct ((48 <=? _) && _) eqn:E; [|discriminate].
  intros _. apply andb_prop in E. lia.
Qed.

Lemma digit_not_sign c d :
  digit c = Some d ->
  Ascii.eqb c "-"%char = false /\ Ascii.eqb c "+"%char = false.
Proof.
  intros H. split; apply Ascii.eqb_neq; intros ->; discriminate H.
Qed.

Lemma strtoul_digits_decimal s : forall acc v,
  decimal_value s acc = Some v -> 0 <= acc -> v <= 65535 ->
  strtoul_digits s acc false = (v, false) /\ acc <= v.
Proof.
  induction s as [|c rest IH]; simpl; intros acc v Hv Hacc Hmax.
  - injection Hv as <-. split; [reflexivity | lia].
  - destruct (digit c) as [d|] eqn:Hd; [|discriminate].
    pose proof (digit_range _ _ Hd) as Hr.
    assert (0 <= acc * 10 + d) as Hacc' by lia.
    destruct (IH _ _ Hv Hacc' Hmax) as [Hrun Hle].
    assert ((ULONG_MAX <? acc * 10 + d) = false) as ->
        by (apply Z.ltb_ge; unfold ULONG_MAX; lia).
    split; [exact Hrun | lia].
Qed.

Lemma strtoul_decimal s v e :
  decimal_port s = Some v -> strtoul s e = (v, e) /\ 0 <= v <= 65535.
Proof.
  unfold decimal_port, strtoul.
  destruct (b s) as [|c rest] eqn:Hb; [discriminate|].
  destruct (decimal_value (c :: rest) 0) as [w|] eqn:Hw; [|discriminate].
  destruct (w <=? 65535) eqn:Hle; [|discriminate]. intros [= <-].
  apply Z.leb_le in Hle.
  destruct (strtoul_digits_decimal _ _ _ Hw (Z.le_refl 0) Hle) as [Hrun H0].
  simpl in Hw. destruct (digit c) as [d|] eqn:Hd; [|discriminate].
  destruct (digit_not_sign _ _ Hd) as [Hm Hp].
  simpl skip_spaces. rewrite (digit_not_space _ _ Hd), Hm, Hp, Hrun.
  split; [reflexivity | lia].
Qed.

(** Every decimal port from 0 to 65535 passes the check of the option
    loop and becomes the port the server asks [getaddrinfo] for. *)
Lemma decimal_port_accepted argv0 s v rest port p :
  decimal_port s = Some v -> errno p <> ERANGE ->
  parse_options argv0 (("p"%char, s) :: rest) port p
  = parse_options argv0 rest s p.
Proof.
  intros Hs He. simpl.
  destruct (strtoul_decimal s v (errno p) Hs) as [-> Hv].
  rewrite set_errno_same.
  apply Z.eqb_neq in He. rewrite He.
  assert ((v >? 65535) = false) as -> by lia.
  reflexivity.
Qed.

(** On such a system every decimal port from 0 to 65535 is bound and
    listened on. *)
Lemma decimal_port_is_bound s n :
  decimal_port s = Some n ->
  let r := main with_services (mkInput 3 "server" [("p"%char, s)] [] []) in
  fst r = Blocked /\
  calls (snd r) = [Socket (mkAddr "0.0.0.0" n); Bind 3 (mkAddr "0.0.0.0" n);
                   Listen 3 64].
Proof.
  intros Hs. cbv zeta. unfold main.
  change (sigprocmask with_services <? 0) with false.
  change (argc (mkInput 3 "server" [("p"%char, s)] [] []) >? 1) with true.
  cbv iota. cbn [options argv0].
  rewrite (decimal_port_accepted _ s n) by (exact Hs || discriminate).
  cbn [parse_options]. unfold serve. cbn [getaddrinfo with_services].
  destruct (String.eqb s "http") eqn:E.
  { apply String.eqb_eq in E. subst s. discriminate Hs. }
  rewrite Hs. cbn -[verboseprint]. autorewrite with frame.
  split; reflexivity.
Qed.

(** What the check and the resolver do with other arguments: a number
    out of range and a negative one are refused by the check, a string
    that [getaddrinfo] does not know gets past the check and fails
    there; in each case the server exits with a failure and has called
    nothing. *)
Lemma refused_ports_exit_before_bind :
  let run port := main with_services
                       (mkInput 3 "server" [("p"%char, port)] [] []) in
  (fst (run "65536"%string) = Exited EXIT_FAILURE /\
   calls (snd (run "65536"%string)) = []) /\
  (fst (run "-1"%string) = Exited EXIT_FAILURE /\
   calls (snd (run "-1"%string)) = []) /\
  (fst (run "99999999999999999999"%string) = Exited EXIT_FAILURE /\
   calls (snd (run "99999999999999999999"%string)) = []) /\
  (fst (run "80x"%string) = Exited EXIT_FAILURE /\
   stderr (snd (run "80x"%string)) = [("Error in gettaddrinfo()" ++ nl)%string]
   /\ calls (snd (run "80x"%string)) = []).
Proof. vm_compute. repeat split. Qed.

(** C5, at the argument [-p http]: the argument is not a decimal
    number, [strtoul] reads it as 0, the check lets it through, and the
    server binds the address the name resolves to and listens. *)
Theorem C5_service_name_passes_port_check :
  let r := main with_services
                (mkInput 3 "server" [("p"%char, "http")] [] []) in
  decimal_port "http" = None /\
  strtoul "http" 0 = (0, 0) /\
  fst r = Blocked /\
  calls (snd r) = [Socket (mkAddr "0.0.0.0" 80);
                   Bind 3 (mkAddr "0.0.0.0" 80);
                   Listen 3 64].
Proof. vm_compute. repeat split. Qed.

End PortOption.

(** ** The admission loop and the connection counter *)

Section Admission.

Import Server.

(** A wait that the handler cuts short ends the loop, whatever the
    handler left in [stillHandlingRequests]. *)
Lemma interrupted_wait_breaks connectFD a rest p :
  main_loop connectFD ((Interrupted, a) :: rest) p
  = (LoopBreak, set_errno EINTR (sigchld_handler SIGCHLD p)).
Proof. reflexivity. Qed.

(** A wait that times out ends the loop only when the handler has
    cleared the flag. *)
Lemma timed_out_wait_checks_flag connectFD a rest p :
  errno p <> EINTR ->
  main_loop connectFD ((TimedOut, a) :: rest) p
  = if stillHandlingRequests p then main_loop connectFD rest p
    else (LoopBreak, p).
Proof.
  intros He. apply Z.eqb_neq in He. simpl. rewrite He.
  destruct (stillHandlingRequests p); reflexivity.
Qed.

(** While the flag is set, waits that time out leave the server waiting,
    however many they are: a connection that stays open keeps the server
    up. *)
Lemma timeouts_keep_waiting connectFD n : forall p,
  errno p <> EINTR -> stillHandlingRequests p = true ->
  main_loop connectFD (repeat timeout n) p = (LoopBlocked, p).
Proof.
  induction n as [|n IH]; intros p He Hflag; [reflexivity|].
  simpl repeat. unfold timeout at 1.
  rewrite timed_out_wait_checks_flag by exact He.
  rewrite Hflag. apply IH; assumption.
Qed.

(** C2, with two connections open when the first worker ends: the
    handler leaves the counter at 1 and the flag set, and the loop is
    left all the same; the client that comes next is never accepted. *)
Theorem C2_interrupted_wait_breaks_with_connection_active :
  let r := main_loop 3 [connection 4 101; connection 5 102; child_signal;
                        connection 6 103] start in
  fst r = LoopBreak /\
  actvConns (snd r) = 1 /\
  stillHandlingRequests (snd r) = true /\
  calls (snd r) = [Accept 3; Fork; Accept 3; Fork].
Proof. vm_compute. repeat split. Qed.

(** C1, with two clients that connect and then both disconnect: the one
    SIGCHLD the server handles ends its loop, the second stays blocked,
    and the server exits, after its two children, with the counter
    at 1. *)
Theorem C1_counter_stays_at_one_after_two_workers :
  let r := main plain
                (mkInput 1 "server" []
                         [connection 4 101; connection 5 102; child_signal]
                         [(101, None); (102, None); (-1, Some ECHILD)]) in
  fst r = Exited 0 /\
  actvConns (snd r) = 1 /\
  stillHandlingRequests (snd r) = true.
Proof. vm_compute. repeat split. Qed.

End Admission.

(** ** The worker *)

Section Worker.

Import Server.

Lemma ppoll_frame ev revents p :
  calls (snd (ppoll ev revents p)) = calls p /\
  serverpid (snd (ppoll ev revents p)) = serverpid p /\
  stderr (snd (ppoll ev revents p)) = stderr p /\
  verboseOutput (snd (ppoll ev revents p)) = verboseOutput p.
Proof.
  destruct ev; simpl; autorewrite with frame; repeat split; reflexivity.
Qed.

(** The loop keeps [serverpid] and adds nothing to the calls of the
    process but [popen] and [send]. *)
Lemma request_loop_calls sessFD events : forall revents p,
  serverpid (snd (request_loop sessFD events revents p)) = serverpid p /\
  exists during,
    calls (snd (request_loop sessFD events revents p))
    = (calls p ++ during)%list /\
    Forall session_call during.
Proof.
  induction events as [|ev rest IH]; intros revents p; simpl.
  - split; [reflexivity|]. exists []. rewrite app_nil_r. auto.
  - destruct (ppoll (s_poll ev) revents p) as [[pollval revents'] p1] eqn:Hp.
    destruct (ppoll_frame (s_poll ev) revents p) as (Hc & Hs & _).
    rewrite Hp in Hc, Hs. simpl in Hc, Hs.
    assert (Hnone : exists during,
               calls p1 = (calls p ++ during)%list /\
               Forall session_call during)
      by (exists []; rewrite app_nil_r; auto).
    destruct ((pollval =? -1) && negb (errno p1 =? EINTR)); simpl.
    { split; [exact Hs | exact Hnone]. }
    destruct (negb (Z.land revents' POLLIN =? 0)).
    2:{ destruct (negb (Z.land revents' POLLHUP =? 0)); simpl.
        - split; [exact Hs | exact Hnone].
        - destruct (IH revents' p1) as (Hs' & during & Hd & Hf).
          split; [congruence|]. exists during. rewrite Hd, Hc. auto. }
    destruct (s_recv ev) as [e|data]; simpl.
    { split; [exact Hs | exact Hnone]. }
    destruct (Z.of_nat (List.length data) <=? 0); simpl.
    { split; [exact Hs | exact Hnone]. }
    destruct (s_popen ev) as [e|output]; simpl.
    { autorewrite with frame. split; [exact Hs|].
      exists [Popen (cstr (data ++ [NUL]))]. rewrite Hc.
      split; [reflexivity|]. repeat constructor. }
    set (p2 := sys (Send sessFD (captured output ++ [NUL])%list)
                   (sys (Popen (cstr (data ++ [NUL])))
                        (verboseprint _ p1))).
    assert (Hs2 : serverpid p2 = serverpid p)
      by (unfold p2; simpl; autorewrite with frame; exact Hs).
    assert (Hc2 : calls p2
                  = (calls p ++ [Popen (cstr (data ++ [NUL]));
                                 Send sessFD (captured output ++ [NUL])])%list).
    { unfold p2. simpl. autorewrite with frame. rewrite Hc, <- app_assoc.
      reflexivity. }
    assert (Hsome : exists during,
               calls p2 = (calls p ++ during)%list /\
               Forall session_call during).
    { eexists. split; [exact Hc2|]. repeat constructor. }
    destruct (s_send ev) as [e|n]; simpl.
    { destruct (e =? EPIPE); simpl; split; (exact Hs2 || exact Hsome). }
    destruct (n <? 0); simpl.
    { split; [exact Hs2 | exact Hsome]. }
    destruct (IH revents' p2) as (Hs' & during & Hd & Hf).
    split; [congruence|].
    exists ([Popen (cstr (data ++ [NUL]));
             Send sessFD (captured output ++ [NUL])] ++ during)%list.
    rewrite Hd, Hc2, <- app_assoc. split; [reflexivity|].
    repeat constructor. exact Hf.
Qed.

Lemma response_call_later sessFD ev rest c :
  response_call sessFD rest c -> response_call sessFD (ev :: rest) c.
Proof.
  destruct c; simpl; auto.
  intros (Hfd & output & Hin & Hr). split; [exact Hfd|].
  exists output. split; [right; exact Hin | exact Hr].
Qed.

(** Whatever the session is, every [send] of the loop carries what was
    captured from a pipe of the session, followed by one NUL. *)
Lemma request_loop_responses sessFD events : forall revents p,
  exists during,
    calls (snd (request_loop sessFD events revents p))
    = (calls p ++ during)%list /\
    Forall (response_call sessFD events) during.
Proof.
  induction events as [|ev rest IH]; intros revents p; simpl.
  - exists []. rewrite app_nil_r. auto.
  - destruct (ppoll (s_poll ev) revents p) as [[pollval revents'] p1] eqn:Hp.
    destruct (ppoll_frame (s_poll ev) revents p) as (Hc & _).
    rewrite Hp in Hc. simpl in Hc.
    assert (Hnone : exists during,
               calls p1 = (calls p ++ during)%list /\
               Forall (response_call sessFD (ev :: rest)) during)
      by (exists []; rewrite app_nil_r; auto).
    assert (Hlater : forall q,
               exists during,
                 calls (snd (request_loop sessFD rest revents' q))
                 = (calls q ++ during)%list /\
                 Forall (response_call sessFD (ev :: rest)) during).
    { intros q. destruct (IH revents' q) as (during & Hd & Hf).
      exists during. split; [exact Hd|].
      apply (Forall_impl _ (response_call_later sessFD ev rest) Hf). }
    destruct ((pollval =? -1) && negb (errno p1 =? EINTR)); simpl.
    { exact Hnone. }
    destruct (negb (Z.land revents' POLLIN =? 0)).
    2:{ destruct (negb (Z.land revents' POLLHUP =? 0)); simpl.
        - exact Hnone.
        - destruct (Hlater p1) as (during & Hd & Hf).
          exists during. rewrite Hd, Hc. auto. }
    destruct (s_recv ev) as [e|data]; simpl.
    { exact Hnone. }
    destruct (Z.of_nat (List.length data) <=? 0); simpl.
    { exact Hnone. }
    destruct (s_popen ev) as [e|output] eqn:Hpopen; simpl.
    { autorewrite with frame.
      exists [Popen (cstr (data ++ [NUL]))]. rewrite Hc.
      split; [reflexivity|]. repeat constructor. }
    set (p2 := sys (Send sessFD (captured output ++ [NUL])%list)
                   (sys (Popen (cstr (data ++ [NUL])))
                        (verboseprint _ p1))).
    assert (Hc2 : calls p2
                  = (calls p ++ [Popen (cstr (data ++ [NUL]));
                                 Send sessFD (captured output ++ [NUL])])%list).
    { unfold p2. simpl. autorewrite with frame. rewrite Hc, <- app_assoc.
      reflexivity. }
    assert (Hsend : response_call sessFD (ev :: rest)
                      (Send sessFD (captured output ++ [NUL]))).
    { split; [reflexivity|]. exists output.
      split; [left; exact Hpopen | reflexivity]. }
    assert (Hsome : exists during,
               calls p2 = (calls p ++ during)%list /\
               Forall (response_call sessFD (ev :: rest)) during).
    { eexists. split; [exact Hc2|].
      constructor; [exact I|]. constructor; [exact Hsend | constructor]. }
    destruct (s_send ev) as [e|n]; simpl.
    { destruct (e =? EPIPE); simpl; exact Hsome. }
    destruct (n <? 0); simpl.
    { exact Hsome. }
    destruct (Hlater p2) as (during & Hd & Hf).
    exists ([Popen (cstr (data ++ [NUL]));
             Send sessFD (captured output ++ [NUL])] ++ during)%list.
    rewrite Hd, Hc2, <- app_assoc. split; [reflexivity|].
    constructor; [exact I|]. constructor; [exact Hsend | exact Hf].
Qed.

Lemma request_loop_stderr_quiet sessFD events : forall revents p,
  Forall (fun ev => s_poll ev = TimedOut \/ s_poll ev = Interrupted) events ->
  fst (request_loop sessFD events revents p) = None /\
  calls (snd (request_loop sessFD events revents p)) = calls p /\
  stderr (snd (request_loop sessFD events revents p)) = stderr p /\
  serverpid (snd (request_loop sessFD events revents p)) = serverpid p.
Proof.
  induction events as [|ev rest IH]; intros revents p Hidle; simpl.
  - auto.
  - inversion Hidle as [|? ? [Hev|Hev] Hrest]; subst; rewrite Hev; simpl.
    + apply (IH 0 p Hrest).
    + destruct (IH 0 (set_errno EINTR (sigchld_handler SIGCHLD p)) Hrest)
        as (H1 & H2 & H3 & H4).
      rewrite H1, H2, H3, H4. simpl. autorewrite with frame. auto.
Qed.

(** Where the loop stands after a first stretch of events that leave
    it running. *)
Lemma request_loop_app sessFD waits : forall events revents p,
  Forall (fun ev => s_poll ev = TimedOut \/ s_poll ev = Interrupted) waits ->
  request_loop sessFD (waits ++ events) revents p
  = request_loop sessFD events
      (match waits with [] => revents | _ => 0 end)
      (snd (request_loop sessFD waits revents p)).
Proof.
  induction waits as [|ev rest IH]; intros events revents p Hidle.
  - reflexivity.
  - inversion Hidle as [|? ? [Hev|Hev] Hrest]; subst; simpl; rewrite Hev;
      simpl; rewrite IH by assumption; destruct rest; reflexivity.
Qed.

Lemma teardown_calls_eq sessFD host service p :
  calls (teardown sessFD host service p)
  = calls p ++ teardown_calls sessFD (serverpid p).
Proof.
  unfold teardown, teardown_calls. simpl. autorewrite with frame.
  repeat rewrite <- app_assoc. reflexivity.
Qed.

(** A test that looks for anything but [popen] and [send] finds nothing
    among the calls of the loop. *)
Lemma session_calls_only (f : syscall -> bool) during :
  (forall c, session_call c -> f c = false) ->
  Forall session_call during -> filter f during = [].
Proof.
  intros Hf. induction 1 as [|c l Hc _ IH]; simpl; [reflexivity|].
  rewrite (Hf c Hc). exact IH.
Qed.

(** Each [break] of the loop is taken on some session. *)
Lemma every_exit_is_taken :
  fst (handle_request 4 "h" "s"
         [mkSession (Failed 9) (RecvBytes []) (PopenPipe []) (SendCount 0)]
         start) = Some PollError /\
  fst (handle_request 4 "h" "s" [end_of_input] start) = Some (RecvEnded 0) /\
  fst (handle_request 4 "h" "s"
         [mkSession (Ready POLLIN) (RecvError 104) (PopenPipe []) (SendCount 0)]
         start) = Some (RecvEnded (-1)) /\
  fst (handle_request 4 "h" "s"
         [mkSession (Ready POLLIN) (RecvBytes (b "ls")) (PopenNull 12)
                    (SendCount 0)]
         start) = Some PopenError /\
  fst (handle_request 4 "h" "s"
         [mkSession (Ready POLLIN) (RecvBytes (b "ls")) (PopenPipe (b "a"))
                    (SendError 104)]
         start) = Some SendFailed /\
  fst (handle_request 4 "h" "s" [request POLLHUP [] []] start) = Some HangUp.
Proof. vm_compute. repeat split. Qed.

(** A worker that a signal kills inside its loop has called nothing but
    [popen] and [send]: what follows the loop is not run. *)
Lemma killed_worker_skips_teardown sessFD host service events p why sig p' :
  handle_request sessFD host service events p = (Some why, p') ->
  killed_by why = Some sig ->
  exists during,
    calls p' = calls p ++ during /\
    Forall session_call during /\
    filter is_close during = [] /\
    filter is_kill during = [].
Proof.
  unfold handle_request. intros H Hk.
  destruct (request_loop_calls sessFD events 0 p) as (Hs & during & Hc & Hf).
  destruct (request_loop sessFD events 0 p) as [[why'|] p1]; [|discriminate].
  destruct (killed_by why') eqn:Hk'.
  - injection H as <- <-. simpl in Hc.
    exists during. split; [exact Hc|]. split; [exact Hf|].
    split; apply session_calls_only; try exact Hf;
      intros [] Hcall; (reflexivity || destruct Hcall).
  - injection H as <- _. congruence.
Qed.

(** A [send] to a peer that has closed the connection: the worker is
    killed by SIGPIPE before [send] returns, and writes no line. *)
Lemma broken_pipe_ends_without_teardown :
  let r := handle_request 4 "localhost" "40000" [closed_peer] start in
  fst r = Some BrokenPipe /\
  killed_by BrokenPipe = Some SIGPIPE /\
  calls (snd r) = [Popen (b "ls"); Send 4 (b "a" ++ [NUL])] /\
  stderr (snd r) = [].
Proof. vm_compute. repeat split. Qed.

(** C7 fails on a session in which [popen] returns NULL: the worker
    writes its [perror] line and takes the [break], which destroys
    [pipe] and so calls [pclose] on the null pointer; the worker is
    killed by SIGSEGV.  It has called [popen] and nothing else: the two
    strings are not freed, the session descriptor is neither shut down
    nor closed, and no SIGCHLD is sent to the server.  [main], which the
    worker runs, does not return. *)
Theorem C7_failed_popen_ends_without_teardown :
  let r := handle_request 4 "localhost" "40000" [failed_popen] start in
  let m := main plain failed_popen_worker in
  fst r = Some PopenError /\
  killed_by PopenError = Some SIGSEGV /\
  calls (snd r) = [Popen (b "ls")] /\
  stderr (snd r) = ["popen(): errno 24" ++ nl]%string /\
  fst m = Killed SIGSEGV /\
  filter is_close (calls (snd m)) = [] /\
  filter is_kill (calls (snd m)) = [] /\
  In (Popen (b "ls")) (calls (snd m)).
Proof. vm_compute. repeat split. right. right. right. right. right. left. reflexivity. Qed.

(** C6 as stated fails: a client that sends [ls] with no sentinel after
    it and then shuts down its sending side has sent no sentinel-terminated
    request, yet the worker runs [ls] and sends the response. *)
Lemma C6_unterminated_request_is_answered :
  let events := [request POLLIN (b "ls") (b "a"); end_of_input] in
  let r := handle_request 4 "localhost" "40000" events start in
  forallb (fun ev => match s_recv ev with
                     | RecvBytes data => negb (has_sentinel data)
                     | RecvError _ => true
                     end) events = true /\
  fst r = Some (RecvEnded 0) /\
  filter (sent_to 4) (calls (snd r)) = [Send 4 (b "a" ++ [NUL])].
Proof. vm_compute. repeat split. Qed.

(** C6, amended: when the peer shuts down its sending side without having
    sent a byte, the worker, after any number of waits, leaves its loop
    through the [break] after [recv] returned 0 or through the POLLHUP
    branch, prints nothing on the error stream and calls nothing but its
    teardown: no [send]. *)
Theorem C6_silent_peer_shutdown sessFD host service waits ev rest p :
  Forall idle waits -> peer_gone ev ->
  exists why p',
    handle_request sessFD host service (waits ++ ev :: rest) p
    = (Some why, p') /\
    (why = RecvEnded 0 \/ why = HangUp) /\
    stderr p' = stderr p /\
    calls p' = calls p ++ teardown_calls sessFD (serverpid p).
Proof.
  intros Hidle (revents & Hpoll & Hgone).
  unfold handle_request. rewrite request_loop_app by exact Hidle.
  destruct (request_loop_stderr_quiet sessFD waits 0 p Hidle)
    as (_ & Hc & He & Hs).
  set (p1 := snd (request_loop sessFD waits 0 p)) in *.
  simpl. rewrite Hpoll. simpl.
  destruct Hgone as [[Hin Hrecv] | [Hin Hhup]].
  - apply Z.eqb_neq in Hin. rewrite Hin, Hrecv. simpl.
    exists (RecvEnded 0), (teardown sessFD host service p1).
    split; [reflexivity|]. split; [auto|].
    rewrite teardown_calls_eq, Hc, Hs. split; [|reflexivity].
    unfold teardown. simpl. autorewrite with frame. exact He.
  - apply Z.eqb_neq in Hhup. apply Z.eqb_eq in Hin. rewrite Hin, Hhup. simpl.
    exists HangUp, (teardown sessFD host service p1).
    split; [reflexivity|]. split; [auto|].
    rewrite teardown_calls_eq, Hc, Hs. split; [|reflexivity].
    unfold teardown. simpl. autorewrite with frame. exact He.
Qed.

Lemma C6_silent_peer_shutdown_witness :
  exists why p',
    handle_request 4 "localhost" "40000"
      ([mkSession TimedOut (RecvBytes []) (PopenPipe []) (SendCount 0)]
       ++ end_of_input :: []) start
    = (Some why, p') /\
    (why = RecvEnded 0 \/ why = HangUp) /\
    stderr p' = stderr start /\
    calls p' = calls start ++ teardown_calls 4 (serverpid start).
Proof.
  apply (C6_silent_peer_shutdown 4 "localhost" "40000"
           [mkSession TimedOut (RecvBytes []) (PopenPipe []) (SendCount 0)]
           end_of_input [] start).
  - repeat constructor.
  - exists POLLIN. split; [reflexivity|]. left. split; [discriminate | reflexivity].
Defined.

End Worker.

(** ** C strings and the pipe *)

Section Capture.

Import Server.

Lemma cstr_no_sentinel buf : ~ In NUL (cstr buf).
Proof.
  induction buf as [|c rest IH]; simpl; [tauto|].
  destruct (Ascii.eqb c NUL) eqn:E; simpl; [tauto|].
  apply Ascii.eqb_neq in E. intros [H|H]; [congruence | tauto].
Qed.

Lemma cstr_sentinel_free buf : ~ In NUL buf -> cstr buf = buf.
Proof.
  induction buf as [|c rest IH]; simpl; intros H; [reflexivity|].
  destruct (Ascii.eqb c NUL) eqn:E.
  - apply Ascii.eqb_eq in E. tauto.
  - rewrite IH by tauto. reflexivity.
Qed.

(** The terminator written after the bytes received ends the string
    at the latest. *)
Lemma cstr_terminated buf rest : cstr (buf ++ NUL :: rest) = cstr buf.
Proof.
  induction buf as [|c buf IH]; simpl; [reflexivity|].
  destruct (Ascii.eqb c NUL); [reflexivity | now rewrite IH].
Qed.

Lemma fgets_read_spec k : forall s line f,
  fgets_read k s = (line, f) ->
  s = line ++ f_rest f /\
  (f_eof f = true -> f_rest f = []) /\
  (k <> 0%nat -> line = [] -> s = [] /\ f_eof f = true).
Proof.
  induction k as [|k IH]; simpl; intros s line f H.
  - injection H as <- <-. simpl. repeat split; congruence.
  - destruct s as [|c rest].
    + injection H as <- <-. simpl. auto.
    + destruct (Ascii.eqb c LF).
      * injection H as <- <-. simpl. repeat split; congruence.
      * destruct (fgets_read k rest) as [line' f'] eqn:E.
        injection H as <- <-.
        destruct (IH _ _ _ E) as (H1 & H2 & _).
        simpl. rewrite <- H1. repeat split; auto; congruence.
Qed.

Lemma fgets_spec pipe :
  match fgets BUFFERSIZE pipe with
  | (None, pipe') => f_rest pipe = [] /\ f_eof pipe' = true /\ f_rest pipe' = []
  | (Some buffer, pipe') =>
      buffer <> [] /\ f_rest pipe = buffer ++ f_rest pipe' /\
      (f_eof pipe' = true -> f_rest pipe' = [])
  end.
Proof.
  unfold fgets.
  assert (Hk : Z.to_nat (BUFFERSIZE - 1) <> 0%nat) by (vm_compute; discriminate).
  destruct (fgets_read (Z.to_nat (BUFFERSIZE - 1)) (f_rest pipe))
    as [line f] eqn:E.
  destruct (fgets_read_spec _ _ _ _ E) as (H1 & H2 & H3).
  destruct line as [|c line].
  - destruct (H3 Hk eq_refl) as [Hs He]. rewrite (H2 He) in *. auto.
  - repeat split; auto. discriminate.
Qed.

(** The loop over the pipe ends within the fuel [captured] gives it; what
    it appends holds no sentinel, and it is the whole output when the
    output holds none. *)
Lemma read_pipe_spec fuel : forall pipe result,
  (f_eof pipe = true -> f_rest pipe = []) ->
  (f_eof pipe = true \/ (List.length (f_rest pipe) < fuel)%nat) ->
  exists r,
    read_pipe fuel pipe result = Some r /\
    (~ In NUL result -> ~ In NUL r) /\
    (~ In NUL (f_rest pipe) -> r = result ++ f_rest pipe).
Proof.
  induction fuel as [|fuel IH]; intros pipe result Hinv Hfuel.
  - destruct Hfuel as [He|Hl]; [|inversion Hl].
    exists result. simpl. unfold feof. rewrite He.
    rewrite (Hinv He), app_nil_r. auto.
  - simpl. unfold feof. destruct (f_eof pipe) eqn:He.
    { exists result. rewrite (Hinv eq_refl), app_nil_r. auto. }
    destruct Hfuel as [Hf|Hl]; [discriminate|].
    pose proof (fgets_spec pipe) as Hg.
    destruct (fgets BUFFERSIZE pipe) as [[buffer|] pipe'].
    + destruct Hg as (Hne & Hsplit & Hinv').
      assert (Hl' : (List.length (f_rest pipe') < fuel)%nat).
      { rewrite Hsplit, length_app in Hl.
        destruct buffer; [congruence | simpl in Hl; lia]. }
      destruct (IH pipe' (result ++ cstr buffer) Hinv' (or_intror Hl'))
        as (r & Hr & Hfree & Hall).
      exists r. split; [exact Hr|]. split.
      * intros Hres. apply Hfree. intros Hin. apply in_app_or in Hin.
        destruct Hin as [Hin|Hin]; [tauto|].
        exact (cstr_no_sentinel _ Hin).
      * intros Hout. rewrite Hsplit in Hout.
        rewrite Hall by (intros Hin; apply Hout, in_or_app; tauto).
        rewrite cstr_sentinel_free
          by (intros Hin; apply Hout, in_or_app; tauto).
        rewrite Hsplit, app_assoc. reflexivity.
    + destruct Hg as (Hrest & He' & Hrest').
      destruct (IH pipe' result (fun _ => Hrest') (or_introl He'))
        as (r & Hr & Hfree & Hall).
      exists r. split; [exact Hr|]. split; [exact Hfree|].
      intros _. rewrite Hall by (rewrite Hrest'; tauto).
      rewrite Hrest, Hrest'. reflexivity.
Qed.

(** The fuel [captured] gives the loop is enough for every output. *)
Lemma read_pipe_ends output :
  exists result,
    read_pipe (S (List.length output)) (mkFILE output false) [] = Some result.
Proof.
  destruct (read_pipe_spec (S (List.length output)) (mkFILE output false) [])
    as (r & Hr & _); [simpl; discriminate | simpl; right; lia |].
  exists r. exact Hr.
Qed.

Lemma captured_no_sentinel output : ~ In NUL (captured output).
Proof.
  unfold captured.
  destruct (read_pipe_spec (S (List.length output)) (mkFILE output false) [])
    as (r & Hr & Hfree & _); [simpl; discriminate | simpl; right; lia |].
  rewrite Hr. apply Hfree. tauto.
Qed.

Lemma captured_sentinel_free output :
  ~ In NUL output -> captured output = output.
Proof.
  unfold captured. intros Hout.
  destruct (read_pipe_spec (S (List.length output)) (mkFILE output false) [])
    as (r & Hr & _ & Hall); [simpl; discriminate | simpl; right; lia |].
  rewrite Hr. apply Hall. exact Hout.
Qed.

Lemma captured_nothing : captured [] = [].
Proof. reflexivity. Qed.

End Capture.

(** ** The client's receive loop *)

Section Receive.

Import Client.

Lemma wrap_int_small z : - 2 ^ 31 <= z < 2 ^ 31 -> wrap_int z = z.
Proof. intros H. unfold wrap_int. rewrite Z.mod_small; lia. Qed.

Lemma echo_stdout chunks : forall p,
  stdout (echo chunks p) = stdout p ++ echoed chunks.
Proof.
  induction chunks as [|c cs IH]; intros p; simpl.
  - now rewrite app_nil_r.
  - unfold echo in *. simpl. rewrite IH. simpl.
    repeat rewrite <- app_assoc. reflexivity.
Qed.

Lemma echo_frame chunks : forall p,
  calls (echo chunks p) = calls p /\ stderr (echo chunks p) = stderr p /\
  errno (echo chunks p) = errno p /\
  verboseOutput (echo chunks p) = verboseOutput p.
Proof.
  induction chunks as [|c cs IH]; intros p; simpl; [auto|].
  unfold echo in *. simpl. destruct (IH (cout nl (cout (text (cstr c)) p)))
    as (H1 & H2 & H3 & H4).
  rewrite H1, H2, H3, H4. auto.
Qed.

(** A list that ends where a longer one ends. *)
Lemma tail_of_terminated (l1 l2 l : bytes) x :
  l1 ++ l2 = l ++ [x] -> l2 <> [] ->
  exists l', l2 = l' ++ [x] /\ l = l1 ++ l'.
Proof.
  intros H Hne. destruct (exists_last Hne) as (l' & y & ->).
  rewrite app_assoc in H. apply app_inj_tail in H. destruct H as [<- ->].
  exists l'. auto.
Qed.

(** One turn of the loop on a chunk whose last byte is [x]. *)
Lemma receive_chunk sessFD c x reads bytesread p :
  0 <= bytesread -> bytesread + Z.of_nat (List.length (c ++ [x])) < 2 ^ 31 ->
  receive sessFD (ReadBytes (c ++ [x]) :: reads) bytesread p
  = let n := bytesread + Z.of_nat (List.length (c ++ [x])) in
    let q := cout nl (cout (text (cstr (c ++ [x]))) p) in
    if Ascii.eqb x NUL then (Complete, reads, n, q)
    else receive sessFD reads n q.
Proof.
  intros H0 Hmax. cbn [receive].
  assert (Hlen : Z.of_nat (List.length (c ++ [x])) = Z.of_nat (List.length c) + 1)
    by (rewrite length_app; simpl; lia).
  assert ((Z.of_nat (List.length (c ++ [x])) <? 0) = false) as -> by lia.
  assert ((Z.of_nat (List.length (c ++ [x])) =? 0) = false) as -> by lia.
  rewrite wrap_int_small by lia.
  rewrite cstr_terminated.
  replace (Z.to_nat (Z.of_nat (List.length (c ++ [x])) - 1))
    with (List.length c) by lia.
  rewrite <- app_assoc. simpl ((_ :: _) ++ _). rewrite nth_middle.
  reflexivity.
Qed.

(** The loop reads a response chunk by chunk, whatever the chunks are,
    and stops at the one that carries the sentinel. *)
Lemma receive_chunks sessFD chunks : forall payload reads bytesread p,
  List.concat chunks = payload ++ [NUL] -> ~ In NUL payload ->
  Forall (fun c => c <> []) chunks ->
  0 <= bytesread ->
  bytesread + Z.of_nat (List.length payload) + 1 < 2 ^ 31 ->
  receive sessFD (map ReadBytes chunks ++ reads) bytesread p
  = (Complete, reads, bytesread + Z.of_nat (List.length payload) + 1,
     echo chunks p) /\
  List.concat (map cstr chunks) = payload.
Proof.
  induction chunks as [|c cs IH];
    intros payload reads bytesread p Hcat Hfree Hne H0 Hmax.
  - destruct payload; discriminate.
  - inversion Hne as [|? ? Hc Hcs]; subst.
    destruct (exists_last Hc) as (c' & x & ->).
    simpl map. simpl app. simpl List.concat in Hcat.
    destruct cs as [|d ds].
    + simpl in Hcat. rewrite app_nil_r in Hcat.
      apply app_inj_tail in Hcat. destruct Hcat as [-> ->].
      rewrite receive_chunk
        by (rewrite ?length_app; simpl; lia).
      simpl. rewrite length_app. simpl. rewrite cstr_terminated.
      rewrite app_nil_r, cstr_sentinel_free by exact Hfree.
      split; [|reflexivity]. do 2 f_equal. lia.
    + assert (Hrest : List.concat (d :: ds) <> []).
      { inversion Hcs; subst. simpl. destruct d; [congruence | discriminate]. }
      destruct (tail_of_terminated _ _ _ _ Hcat Hrest) as (payload' & Hcat' & ->).
      assert (Hfree1 : ~ In NUL (c' ++ [x]))
        by (intros Hin; apply Hfree, in_or_app; tauto).
      assert (Hfree2 : ~ In NUL payload')
        by (intros Hin; apply Hfree, in_or_app; tauto).
      assert (Hx : Ascii.eqb x NUL = false).
      { apply Ascii.eqb_neq. intros ->. apply Hfree1, in_or_app.
        right. left. reflexivity. }
      rewrite length_app in Hmax.
      rewrite receive_chunk by lia. cbv zeta. rewrite Hx.
      destruct (IH payload' reads
                   (bytesread + Z.of_nat (List.length (c' ++ [x])))
                   (cout nl (cout (text (cstr (c' ++ [x]))) p))
                   Hcat' Hfree2 Hcs) as [Hrun Htext]; try lia.
      split.
      * rewrite Hrun. rewrite (length_app (c' ++ [x]) payload').
        do 2 f_equal. lia.
      * simpl map. simpl List.concat. simpl in Htext. rewrite Htext.
        rewrite cstr_sentinel_free by exact Hfree1. reflexivity.
Qed.

(** C4 as stated fails: the response [ab] is shown as one line when it
    comes in one chunk and as two lines when it comes in two. *)
Lemma C4_split_response_is_shown_differently :
  let whole := [b "ab" ++ [NUL]] in
  let split := [b "a"; b "b" ++ [NUL]] in
  List.concat split = List.concat whole /\
  forallb (fun c => negb (Nat.eqb (List.length c) 0)) split = true /\
  shown (snd (receive 3 (map ReadBytes whole) 0 start)) = ("ab" ++ nl)%string /\
  shown (snd (receive 3 (map ReadBytes split) 0 start))
  = ("a" ++ nl ++ "b" ++ nl)%string /\
  shown (snd (receive 3 (map ReadBytes split) 0 start))
  <> shown (snd (receive 3 (map ReadBytes whole) 0 start)).
Proof. vm_compute. repeat split. discriminate. Qed.

(** C4, amended: for a payload without sentinel followed by the sentinel,
    cut into non-empty chunks in any way, the loop reads exactly these
    chunks, counts all their bytes, and writes each chunk followed by a
    newline of its own; the chunks as written, without these newlines,
    are the payload. *)
Theorem C4_chunks_are_shown_one_per_line sessFD chunks payload reads p :
  List.concat chunks = payload ++ [NUL] -> ~ In NUL payload ->
  Forall (fun c => c <> []) chunks ->
  Z.of_nat (List.length payload) + 1 < 2 ^ 31 ->
  exists p',
    receive sessFD (map ReadBytes chunks ++ reads) 0 p
    = (Complete, reads, Z.of_nat (List.length payload) + 1, p') /\
    stdout p' = stdout p ++ echoed chunks /\
    List.concat (map cstr chunks) = payload /\
    calls p' = calls p /\ stderr p' = stderr p.
Proof.
  intros Hcat Hfree Hne Hmax.
  destruct (receive_chunks sessFD chunks payload reads 0 p Hcat Hfree Hne)
    as [Hrun Htext]; try lia.
  exists (echo chunks p). simpl in Hrun.
  destruct (echo_frame chunks p) as (H1 & H2 & _).
  rewrite echo_stdout. auto.
Qed.

Lemma C4_chunks_are_shown_one_per_line_witness :
  exists p',
    receive 3 (map ReadBytes [b "a"; b "b" ++ [NUL]] ++ []) 0 start
    = (Complete, [], Z.of_nat (List.length (b "ab")) + 1, p') /\
    stdout p' = stdout start ++ echoed [b "a"; b "b" ++ [NUL]] /\
    List.concat (map cstr [b "a"; b "b" ++ [NUL]]) = b "ab" /\
    calls p' = calls start /\ stderr p' = stderr start.
Proof.
  apply (C4_chunks_are_shown_one_per_line 3 [b "a"; b "b" ++ [NUL]] (b "ab")
           [] start).
  - reflexivity.
  - vm_compute. intuition discriminate.
  - repeat constructor; discriminate.
  - vm_compute. reflexivity.
Defined.

End Receive.

(** ** Responses *)

#[local] Arguments String.append : simpl never.
#[local] Arguments Server.captured : simpl never.
#[local] Arguments cstr : simpl never.
#[local] Arguments decimal : simpl never.
#[local] Arguments wrap_int : simpl never.
#[local] Arguments Z.of_nat : simpl never.

Section Responses.

Import Server.

(** C9: a turn of the worker that receives a command and gets a pipe
    hands [send] the captured output followed by one NUL: after the turn
    the worker is still in its loop and has called [popen] on the command
    and [send] on the session descriptor with that response, and nothing
    else; whatever follows the turn comes after these two calls, and
    every [send] of the loop, in any session, carries what was captured
    from one of its pipes followed by one NUL.  The captured output holds
    no NUL (it is the whole output when that holds none), so the NUL sent
    is the only one and the last byte; with no output the response is the
    NUL alone; and however the response is cut into chunks, the client's
    loop stops at its last chunk. *)
Theorem C9_response_is_output_and_one_sentinel
        sessFD ev rest revents0 revents p data output n :
  s_poll ev = Ready revents -> Z.land revents POLLIN <> 0 ->
  s_recv ev = RecvBytes data -> data <> [] ->
  s_popen ev = PopenPipe output -> s_send ev = SendCount n -> 0 <= n ->
  let response := captured output ++ [NUL] in
  request_loop sessFD (ev :: rest) revents0 p
  = request_loop sessFD rest revents
      (sys (Send sessFD response)
         (sys (Popen (cstr data))
            (verboseprint
               ("Read from client was: " ++ text (cstr data) ++ nl)%string p)))
  /\ fst (request_loop sessFD [ev] revents0 p) = None
  /\ calls (snd (request_loop sessFD [ev] revents0 p))
     = calls p ++ [Popen (cstr data); Send sessFD response]
  /\ filter (sent_to sessFD) (calls (snd (request_loop sessFD [ev] revents0 p)))
     = filter (sent_to sessFD) (calls p) ++ [Send sessFD response]
  /\ (exists during,
        calls (snd (request_loop sessFD (ev :: rest) revents0 p))
        = calls p ++ Popen (cstr data) :: Send sessFD response :: during /\
        Forall (response_call sessFD rest) during)
  /\ (forall events revents' q,
        exists during,
          calls (snd (request_loop sessFD events revents' q))
          = calls q ++ during /\
          Forall (response_call sessFD events) during)
  /\ ~ In NUL (captured output)
  /\ (~ In NUL output -> captured output = output)
  /\ (output = [] -> response = [NUL])
  /\ (forall fd chunks reads q,
        List.concat chunks = response ->
        Forall (fun c => c <> []) chunks ->
        Z.of_nat (List.length (captured output)) + 1 < 2 ^ 31 ->
        Client.receive fd (map Client.ReadBytes chunks ++ reads) 0 q
        = (Client.Complete, reads,
           Z.of_nat (List.length (captured output)) + 1, echo chunks q)).
Proof.
  intros Hpoll Hin Hrecv Hdata Hpopen Hsend Hn response.
  assert (Hstep : forall rest',
    request_loop sessFD (ev :: rest') revents0 p
    = request_loop sessFD rest' revents
        (sys (Send sessFD response)
           (sys (Popen (cstr data))
              (verboseprint
                 ("Read from client was: " ++ text (cstr data) ++ nl)%string
                 p)))).
  { intros rest'. simpl. rewrite Hpoll. simpl.
    apply Z.eqb_neq in Hin. rewrite Hin, Hrecv. simpl.
    assert ((Z.of_nat (List.length data) <=? 0) = false) as ->
        by (destruct data; [congruence | cbn [List.length]; apply Z.leb_gt; lia]).
    rewrite Hpopen, Hsend, cstr_terminated.
    assert ((n <? 0) = false) as -> by (apply Z.ltb_ge; lia).
    reflexivity. }
  assert (Hcalls : forall q,
    calls (sys (Send sessFD response)
             (sys (Popen (cstr data))
                (verboseprint
                   ("Read from client was: " ++ text (cstr data) ++ nl)%string
                   q)))
    = calls q ++ [Popen (cstr data); Send sessFD response]).
  { intros q. cbn [calls sys]. autorewrite with frame.
    rewrite <- app_assoc. reflexivity. }
  split; [apply Hstep|].
  split; [rewrite Hstep; reflexivity|].
  split; [rewrite Hstep; cbn [request_loop snd]; apply Hcalls|].
  split.
  { rewrite Hstep. cbn [request_loop snd]. rewrite Hcalls, filter_app.
    cbn [filter sent_to]. rewrite Z.eqb_refl. reflexivity. }
  split.
  { rewrite Hstep.
    destruct (request_loop_responses sessFD rest revents
                (sys (Send sessFD response)
                   (sys (Popen (cstr data))
                      (verboseprint
                         ("Read from client was: " ++ text (cstr data)
                          ++ nl)%string p))))
      as (during & Hd & Hf).
    exists during. split; [|exact Hf].
    rewrite Hd, Hcalls, <- app_assoc. reflexivity. }
  split; [intros events revents' q; apply request_loop_responses|].
  split; [apply captured_no_sentinel|].
  split; [apply captured_sentinel_free|].
  split; [intros ->; reflexivity|].
  intros fd chunks reads q Hcat Hne Hmax.
  apply (receive_chunks fd chunks (captured output) reads 0 q Hcat
           (captured_no_sentinel output) Hne); lia.
Qed.

Lemma C9_response_is_output_and_one_sentinel_witness :
  let ev := request POLLIN (b "true") [] in
  let response := captured [] ++ [NUL] in
  request_loop 4 [ev] 0 start
  = request_loop 4 [] POLLIN
      (sys (Send 4 response)
         (sys (Popen (cstr (b "true")))
            (verboseprint
               ("Read from client was: " ++ text (cstr (b "true")) ++ nl)%string
               start)))
  /\ fst (request_loop 4 [ev] 0 start) = None
  /\ calls (snd (request_loop 4 [ev] 0 start))
     = calls start ++ [Popen (cstr (b "true")); Send 4 response]
  /\ filter (sent_to 4) (calls (snd (request_loop 4 [ev] 0 start)))
     = filter (sent_to 4) (calls start) ++ [Send 4 response]
  /\ (exists during,
        calls (snd (request_loop 4 (ev :: []) 0 start))
        = calls start ++ Popen (cstr (b "true")) :: Send 4 response :: during /\
        Forall (response_call 4 []) during)
  /\ (forall events revents' q,
        exists during,
          calls (snd (request_loop 4 events revents' q))
          = calls q ++ during /\
          Forall (response_call 4 events) during)
  /\ ~ In NUL (captured [])
  /\ (~ In NUL [] -> captured [] = [])
  /\ (@nil ascii = [] -> response = [NUL])
  /\ (forall fd chunks reads q,
        List.concat chunks = response ->
        Forall (fun c => c <> []) chunks ->
        Z.of_nat (List.length (captured [])) + 1 < 2 ^ 31 ->
        Client.receive fd (map Client.ReadBytes chunks ++ reads) 0 q
        = (Client.Complete, reads,
           Z.of_nat (List.length (captured [])) + 1, echo chunks q)).
Proof.
  apply (C9_response_is_output_and_one_sentinel 4
           (request POLLIN (b "true") []) [] 0 POLLIN start (b "true") [] 1).
  - reflexivity.
  - vm_compute. discriminate.
  - reflexivity.
  - vm_compute. discriminate.
  - reflexivity.
  - reflexivity.
  - lia.
Defined.

End Responses.

(** ** The client's command loop *)

Section Commands.

Import Client.

(** C8: when the line read in interactive mode is [exit], the loop ends
    at once; the client has written the prompt and nothing to the socket,
    shuts the socket down, closes it and exits with success. *)
Theorem C8_exit_ends_the_client_without_a_write
        sessFD writes rest reads command p :
  let r := finish sessFD
             (command_loop sessFD false writes ("exit"%string :: rest) reads
                           command p) in
  command_loop sessFD false writes ("exit"%string :: rest) reads command p
  = (LoopBreak, cout "$ " p) /\
  fst r = Exited EXIT_SUCCESS /\
  calls (snd r) = calls p ++ [Shutdown sessFD SHUT_RDWR; Close sessFD].
Proof.
  assert (H : command_loop sessFD false writes ("exit"%string :: rest) reads
                           command p = (LoopBreak, cout "$ " p))
    by (destruct writes; reflexivity).
  cbv zeta. rewrite H. split; [reflexivity|]. split; [reflexivity|].
  simpl. autorewrite with frame. simpl. rewrite <- app_assoc. reflexivity.
Qed.

(** An interactive session of one command: the only bytes written to the
    socket are those of the command. *)
Lemma exit_after_one_command :
  let r := main (mkEnv (fun h s => (0, [mkAddr h 8888])) (fun _ => 3)
                       (fun _ _ => 0))
                (mkInput 3 "client" [("h"%char, "localhost"%string)]
                         ["ls"%string; "exit"%string] [3; 5]
                         [ReadBytes (b "a" ++ [NUL])]) in
  fst r = Exited EXIT_SUCCESS /\
  calls (snd r)
  = [Socket (mkAddr "localhost" 8888); Connect 3 (mkAddr "localhost" 8888);
     Write 3 (b "ls" ++ [NUL]); Shutdown 3 SHUT_RDWR; Close 3].
Proof. vm_compute. repeat split. Qed.

End Commands.

(** ** The verbose flag *)

Section Verbose.

Import Server.

#[local] Arguments handle_request : simpl never.

Ltac same_start p q H :=
  destruct p as [pid1 n1 v1 f1 e1 o1 r1 c1], q as [pid2 n2 v2 f2 e2 o2 r2 c2];
  unfold same_behaviour in H; simpl in H;
  destruct H as (-> & -> & -> & -> & -> & ->).

Ltac same_cases :=
  repeat match goal with
         | |- context [match ?x with _ => _ end] =>
             is_var x; destruct x
         | |- context [if ?c then _ else _] => destruct c eqn:?
         | |- context [match ?x with _ => _ end] => destruct x eqn:?
         end.

Ltac same_done :=
  simpl; unfold same_behaviour; simpl; repeat split; reflexivity.

Lemma same_request_loop sessFD events : forall revents p q,
  same_behaviour p q ->
  fst (request_loop sessFD events revents p)
  = fst (request_loop sessFD events revents q) /\
  same_behaviour (snd (request_loop sessFD events revents p))
                 (snd (request_loop sessFD events revents q)).
Proof.
  induction events as [|ev rest IH]; intros revents p q H.
  - simpl. auto.
  - same_start p q H.
    destruct ev as [w rc po se].
    simpl. unfold ppoll, sigchld_handler, verboseprint. simpl.
    destruct w; simpl; same_cases; try same_done; apply IH; same_done.
Qed.

Lemma same_handle_request sessFD host service events p q :
  same_behaviour p q ->
  fst (handle_request sessFD host service events p)
  = fst (handle_request sessFD host service events q) /\
  same_behaviour (snd (handle_request sessFD host service events p))
                 (snd (handle_request sessFD host service events q)).
Proof.
  intros H. unfold handle_request.
  destruct (same_request_loop sessFD events 0 p q H) as [Hf Hs].
  destruct (request_loop sessFD events 0 p) as [[why1|] p1],
           (request_loop sessFD events 0 q) as [[why2|] q1];
    simpl in Hf, Hs; try discriminate; [|auto].
  injection Hf as ->.
  destruct (killed_by why2); [simpl; auto|].
  split; [reflexivity|].
  same_start p1 q1 Hs. unfold teardown, verboseprint. simpl.
  same_cases; same_done.
Qed.

(** The child's branch: both runs serve the same session. *)
Ltac same_child p1 q1 Hs :=
  let Hf := fresh "Hf" in
  let Hs' := fresh "Hs" in
  match goal with
  | |- context [handle_request ?fd ?h ?s ?ev ?P] =>
      match goal with
      | |- context [handle_request fd h s ev ?Q] =>
          tryif constr_eq P Q then fail else
            destruct (same_handle_request fd h s ev P Q) as [Hf Hs'];
            [ same_start p1 q1 Hs; unfold verboseprint; simpl;
              same_cases; same_done
            | destruct (handle_request fd h s ev P) as [[?|] ?],
                       (handle_request fd h s ev Q) as [[?|] ?];
              simpl in Hf, Hs'; try discriminate;
              try (injection Hf as ->; destruct (killed_by _));
              simpl; auto ]
      end
  end.

Lemma same_main_loop connectFD events : forall p q,
  same_behaviour p q ->
  fst (main_loop connectFD events p) = fst (main_loop connectFD events q) /\
  same_behaviour (snd (main_loop connectFD events p))
                 (snd (main_loop connectFD events q)).
Proof.
  induction events as [|[w a] rest IH]; intros p q H.
  - simpl. auto.
  - destruct a as [e|sessFD peer [e|session|pid]].
    2,4: same_start p q H; simpl;
      unfold ppoll, sigchld_handler, verboseprint; simpl;
      destruct w; simpl; same_cases; try same_done; apply IH; same_done.
    + same_start p q H. simpl. unfold ppoll, sigchld_handler. simpl.
      destruct w; simpl; same_cases; try same_done; apply IH; same_done.
    + simpl.
      assert (Hp : same_behaviour (snd (ppoll w 0 p)) (snd (ppoll w 0 q)) /\
                   fst (ppoll w 0 p) = fst (ppoll w 0 q)).
      { same_start p q H. unfold ppoll, sigchld_handler. simpl.
        destruct w; simpl; same_cases; split; try reflexivity; same_done. }
      destruct (ppoll w 0 p) as [[pollval1 rev1] p1],
               (ppoll w 0 q) as [[pollval2 rev2] q1].
      simpl in Hp. destruct Hp as [Hs Hv]. injection Hv as -> ->.
      assert (He : errno p1 = errno q1) by apply Hs.
      assert (Hflag : stillHandlingRequests p1 = stillHandlingRequests q1)
        by apply Hs.
      rewrite He, Hflag.
      destruct (errno q1 =? EINTR); [split; [reflexivity | exact Hs]|].
      destruct (pollval2 =? -1).
      { split; [reflexivity|]. same_start p1 q1 Hs. same_done. }
      destruct (pollval2 >? 0).
      2:{ destruct (negb (stillHandlingRequests q1)); [auto|].
          apply IH. exact Hs. }
      destruct peer as [[h s]|]; simpl; same_child p1 q1 Hs.
Qed.

Lemma same_reap events : forall p q,
  same_behaviour p q ->
  fst (reap events p) = fst (reap events q) /\
  same_behaviour (snd (reap events p)) (snd (reap events q)).
Proof.
  induction events as [|[pid e] rest IH]; intros p q H.
  - simpl. auto.
  - same_start p q H. simpl.
    destruct e; simpl; same_cases; try same_done; apply IH; same_done.
Qed.

Lemma same_bind_first env addr : forall p q,
  same_behaviour p q ->
  fst (bind_first env addr p) = fst (bind_first env addr q) /\
  same_behaviour (snd (bind_first env addr p)) (snd (bind_first env addr q)).
Proof.
  induction addr as [|a next IH]; intros p q H.
  - simpl. auto.
  - same_start p q H. simpl.
    same_cases; try same_done; apply IH; same_done.
Qed.

Lemma same_verboseprint m1 m2 p q :
  same_behaviour p q -> same_behaviour (verboseprint m1 p) (verboseprint m2 q).
Proof.
  intros H. same_start p q H. unfold verboseprint. simpl.
  same_cases; same_done.
Qed.

Lemma same_sys c p q :
  same_behaviour p q -> same_behaviour (sys c p) (sys c q).
Proof. intros H. same_start p q H. same_done. Qed.

Lemma same_cerr m p q :
  same_behaviour p q -> same_behaviour (cerr m p) (cerr m q).
Proof. intros H. same_start p q H. same_done. Qed.

Lemma same_perror m p q :
  same_behaviour p q -> same_behaviour (perror m p) (perror m q).
Proof. intros H. same_start p q H. same_done. Qed.

Lemma same_serve env inp port p q :
  same_behaviour p q ->
  fst (serve env inp port p) = fst (serve env inp port q) /\
  same_behaviour (snd (serve env inp port p)) (snd (serve env inp port q)).
Proof.
  intros H. unfold serve.
  pose proof (same_verboseprint
                ("Attempting to start service at port " ++ port ++ nl)%string
                ("Attempting to start service at port " ++ port ++ nl)%string
                _ _
                (same_verboseprint ("Starting server ..." ++ nl)%string
                                   ("Starting server ..." ++ nl)%string
                                   _ _ H)) as H1.
  destruct (getaddrinfo env port) as [s addrHead].
  destruct (negb (s =? 0)).
  { split; [reflexivity|]. apply same_cerr, H1. }
  destruct (same_bind_first env addrHead _ _ H1) as [Hf H2].
  destruct (bind_first env addrHead (verboseprint _ (verboseprint _ p)))
    as [[fd1|] p2],
    (bind_first env addrHead (verboseprint _ (verboseprint _ q)))
    as [[fd2|] q2]; simpl in Hf, H2; try discriminate.
  2:{ split; [reflexivity|]. apply same_perror, H2. }
  injection Hf as ->.
  pose proof (same_sys (Listen fd2 64) _ _
                (same_verboseprint
                   ("Service started. Listening on port " ++ port ++ nl)%string
                   ("Service started. Listening on port " ++ port ++ nl)%string
                   _ _ H2)) as H3.
  destruct (same_main_loop fd2 (connections inp) _ _ H3) as [Hl H4].
  destruct (main_loop fd2 (connections inp) (sys _ (verboseprint _ p2)))
    as [end1 p3],
    (main_loop fd2 (connections inp) (sys _ (verboseprint _ q2)))
    as [end2 q3]; simpl in Hl, H4. subst end2.
  destruct end1; simpl; auto.
  destruct (same_reap (children inp) _ _ H4) as [Hr H5].
  destruct (reap (children inp) p3) as [done1 p4],
           (reap (children inp) q3) as [done2 q4]; simpl in Hr, H5.
  subst done2. destruct done1; simpl; [|auto].
  split; [reflexivity|]. apply same_sys, same_verboseprint, H5.
Qed.

Lemma same_refl p : same_behaviour p p.
Proof. unfold same_behaviour. repeat split; reflexivity. Qed.

Lemma same_set_verbose v p : same_behaviour (set_verboseOutput v p) p.
Proof. destruct p. same_done. Qed.

Lemma parse_options_with_v argv0 opts : forall port p,
  parse_options argv0 (opts ++ [("v"%char, EmptyString)]) port p
  = match parse_options argv0 opts port p with
    | Port port' p' => Port port' (set_verboseOutput true p')
    | r => r
    end.
Proof.
  induction opts as [|[opt optarg] rest IH]; intros port p; [reflexivity|].
  simpl.
  destruct (Ascii.eqb opt "p").
  { destruct (strtoul optarg (errno p)) as [portAsLong e].
    destruct (_ || _); [reflexivity | apply IH]. }
  destruct (Ascii.eqb opt "h"); [reflexivity|].
  destruct (Ascii.eqb opt "v"); [apply IH|].
  destruct (Ascii.eqb opt "?"); reflexivity.
Qed.

(** The same holds of the whole program: started with [-v] added to its
    command line, the server ends the same way and differs in nothing
    but the flag and its standard output. *)
Lemma serve_with_v env inp port p :
  serve env (with_v inp) port p = serve env inp port p.
Proof. reflexivity. Qed.

Lemma verbose_option_changes_only_stdout env inp :
  1 <= argc inp ->
  fst (main env (with_v inp)) = fst (main env inp) /\
  same_behaviour (snd (main env (with_v inp))) (snd (main env inp)).
Proof.
  intros Hargc. unfold main.
  destruct (sigprocmask env <? 0); [split; [reflexivity | apply same_refl]|].
  assert ((argc (with_v inp) >? 1) = true) as ->
      by (unfold with_v; simpl; lia).
  change (argv0 (with_v inp)) with (argv0 inp).
  change (options (with_v inp))
    with (if argc inp >? 1 then options inp ++ [("v"%char, EmptyString)]
          else [("v"%char, EmptyString)]).
  destruct (argc inp >? 1).
  - rewrite parse_options_with_v.
    destruct (parse_options (argv0 inp) (options inp) "8888"
                            (set_serverpid (getpid env) start))
      as [port p|status p|p]; try (split; [reflexivity | apply same_refl]).
    rewrite serve_with_v. apply same_serve, same_set_verbose.
  - exact (same_serve env inp "8888" _ _
             (same_set_verbose true (set_serverpid (getpid env) start))).
Qed.

(** C10: two runs of the server that differ only in the verbose flag
    (and in what they have printed so far) and get the same answers from
    the system take the same branches, end the same way, and agree on the
    counter, the shutdown flag, [errno], the error stream and every
    system call, the bytes handed to [send] on each session socket
    included; only standard output differs.  The increment of the counter
    is the evaluation of the argument of [verboseprint] and happens
    whatever the flag is. *)
Theorem C10_verbose_flag_changes_only_stdout env inp port p q :
  same_behaviour p q ->
  fst (serve env inp port p) = fst (serve env inp port q) /\
  same_behaviour (snd (serve env inp port p)) (snd (serve env inp port q)) /\
  (forall connectFD revents sessFD peer pid,
      errno p <> EINTR ->
      actvConns (snd (main_loop connectFD
                        [(Ready revents, Accepted sessFD peer (ForkParent pid))]
                        p))
      = wrap_int (actvConns p + 1)).
Proof.
  intros H. destruct (same_serve env inp port p q H) as [Hf Hs].
  split; [exact Hf|]. split; [exact Hs|].
  intros connectFD revents sessFD peer pid He.
  apply Z.eqb_neq in He. simpl. rewrite He.
  destruct peer as [[h s]|]; simpl; autorewrite with frame; reflexivity.
Qed.

Lemma C10_verbose_flag_changes_only_stdout_witness :
  let inp := mkInput 1 "server" []
                     [connection 4 101; child_signal]
                     [(101, None); (-1, Some ECHILD)] in
  let p := set_verboseOutput true start in
  fst (serve plain inp "8888" p) = fst (serve plain inp "8888" start) /\
  same_behaviour (snd (serve plain inp "8888" p))
                 (snd (serve plain inp "8888" start)) /\
  (forall connectFD revents sessFD peer pid,
      errno p <> EINTR ->
      actvConns (snd (main_loop connectFD
                        [(Ready revents, Accepted sessFD peer (ForkParent pid))]
                        p))
      = wrap_int (actvConns p + 1)).
Proof.
  apply (C10_verbose_flag_changes_only_stdout plain
           (mkInput 1 "server" [] [connection 4 101; child_signal]
                    [(101, None); (-1, Some ECHILD)])
           "8888" (set_verboseOutput true start) start).
  vm_compute. repeat split.
Defined.

(** The flag does change standard output: the same run, verbose. *)
Lemma verbose_run_prints :
  let inp := mkInput 1 "server" []
                     [connection 4 101; child_signal]
                     [(101, None); (-1, Some ECHILD)] in
  stdout (snd (serve plain inp "8888" start)) = [] /\
  shown (snd (serve plain inp "8888" (set_verboseOutput true start)))
  = ("Starting server ..." ++ nl
     ++ "Attempting to start service at port 8888" ++ nl
     ++ "Service started. Listening on port 8888" ++ nl
     ++ "Received connection from localhost:40000." ++ nl
     ++ "Active connections: 1" ++ nl
     ++ "Shutting down server." ++ nl)%string.
Proof. vm_compute. repeat split. Qed.

End Verbose.

(** ** One command, end to end *)

Section RoundTrip.

(** C3 as stated fails: the client does exit with status 0, but what it
    prints is not the two digits and one newline. *)
Lemma C3_client_prints_more_than_the_output :
  let client := Client.main loopback echo_client in
  let worker := Server.main plain echo_worker in
  filter (written_to 3) (calls (snd client)) = [Write 3 echo_request] /\
  filter (sent_to 4) (calls (snd worker)) = [Send 4 echo_response] /\
  fst client = Exited EXIT_SUCCESS /\
  shown (snd client) <> ("42" ++ nl)%string.
Proof. vm_compute. repeat split. discriminate. Qed.

(** C3, amended: the client sends the command and a NUL; the worker runs
    [echo 42], sends the output and a NUL, and ends with its teardown when
    the client has closed; the client writes the response it read, [42]
    and a newline, then a newline of its own, between its status lines,
    and exits with status 0; the server counts one connection, its
    handler takes the counter back to 0 and clears the flag, and the
    server exits with status 0. *)
Theorem C3_echo_42_round_trip :
  let client := Client.main loopback echo_client in
  let worker := Server.main plain echo_worker in
  let server := Server.main plain echo_server in
  filter (written_to 3) (calls (snd client)) = [Write 3 echo_request] /\
  calls (snd worker)
  = [Socket (mkAddr "0.0.0.0" 8888); Bind 3 (mkAddr "0.0.0.0" 8888);
     Listen 3 64; Accept 3; Fork;
     Popen (b "echo 42"); Send 4 echo_response]
    ++ teardown_calls 4 1000 /\
  fst worker = Exited EXIT_SUCCESS /\
  fst client = Exited EXIT_SUCCESS /\
  stdout (snd client)
  = [("Starting client ..." ++ nl)%string;
     ("Connecting to 127.0.0.1:8888 ..." ++ nl)%string;
     (String "009"%char "Attempt 1 ... ")%string;
     ("Success." ++ nl)%string;
     ("42" ++ nl)%string; nl;
     ("Received response from server of 4 bytes" ++ nl)%string;
     ("Shutting down client..." ++ nl)%string] /\
  fst server = Exited 0 /\
  actvConns (snd server) = 0 /\
  stillHandlingRequests (snd server) = false.
Proof. vm_compute. repeat split. Qed.

End RoundTrip.

(** * More of the two programs *)

(** ** The option loop of the server *)

Section ServerOptions.

Import Server.

Lemma decimal_value_grows s : forall acc v,
  decimal_value s acc = Some v -> 0 <= acc -> acc <= v.
Proof.
  induction s as [|c rest IH]; simpl; intros acc v Hv Hacc.
  - injection Hv as <-. lia.
  - destruct (digit c) as [d|] eqn:Hd; [|discriminate].
    pose proof (digit_range _ _ Hd).
    assert (0 <= acc * 10 + d) as H0 by lia.
    pose proof (IH _ _ Hv H0). lia.
Qed.

(** Once the value has left the range, the digit loop only reads on. *)
Lemma strtoul_digits_overflowed s : forall acc,
  snd (strtoul_digits s acc true) = true.
Proof.
  induction s as [|c rest IH]; intros acc; simpl; [reflexivity|].
  destruct (digit c); [apply IH | reflexivity].
Qed.

(** On a string of digits the loop finds the value of the string, or
    finds that it does not fit. *)
Lemma strtoul_digits_all s : forall acc v,
  decimal_value s acc = Some v -> 0 <= acc <= ULONG_MAX ->
  (strtoul_digits s acc false = (v, false) /\ v <= ULONG_MAX) \/
  (snd (strtoul_digits s acc false) = true /\ ULONG_MAX < v).
Proof.
  induction s as [|c rest IH]; simpl; intros acc v Hv Hacc.
  - injection Hv as <-. left. split; [reflexivity | lia].
  - destruct (digit c) as [d|] eqn:Hd; [|discriminate].
    pose proof (digit_range _ _ Hd) as Hr.
    destruct (ULONG_MAX <? acc * 10 + d) eqn:Hover.
    + right. split; [apply strtoul_digits_overflowed|].
      apply Z.ltb_lt in Hover.
      assert (0 <= acc * 10 + d) as H0 by lia.
      pose proof (decimal_value_grows _ _ _ Hv H0). lia.
    + apply Z.ltb_ge in Hover. apply IH; [exact Hv | lia].
Qed.

(** What [strtoul] makes of a string of digits. *)
Lemma strtoul_all_digits s v e :
  decimal_value (b s) 0 = Some v -> b s <> [] ->
  (strtoul s e = (v, e) /\ v <= ULONG_MAX) \/
  (strtoul s e = (ULONG_MAX, ERANGE) /\ ULONG_MAX < v).
Proof.
  unfold strtoul. intros Hv Hne.
  destruct (b s) as [|c rest] eqn:Hb; [congruence|].
  assert (H0 : 0 <= 0 <= ULONG_MAX) by (unfold ULONG_MAX; lia).
  pose proof (strtoul_digits_all _ _ _ Hv H0) as Hrun.
  simpl in Hv. destruct (digit c) as [d|] eqn:Hd; [|discriminate].
  destruct (digit_not_sign _ _ Hd) as [Hm Hp].
  cbn [skip_spaces]. rewrite (digit_not_space _ _ Hd), Hm, Hp.
  destruct Hrun as [[-> Hle] | [Hov Hgt]].
  - left. auto.
  - right. destruct (strtoul_digits (c :: rest) 0 false) as [w o].
    simpl in Hov. subst o. auto.
Qed.

Lemma strtoul_no_number s e : no_number s = true -> strtoul s e = (0, e).
Proof.
  unfold no_number, strtoul. destruct (b s) as [|c rest]; [reflexivity|].
  intros H. apply andb_prop in H. destruct H as [H Hd].
  apply andb_prop in H. destruct H as [H Hp].
  apply andb_prop in H. destruct H as [Hs Hm].
  apply negb_true_iff in Hs, Hm, Hp.
  cbn [skip_spaces]. rewrite Hs, Hm, Hp. cbn [strtoul_digits].
  destruct (digit c); [discriminate | reflexivity].
Qed.

(** X1: whatever the options are, the option loop calls nothing.  When it
    gets through, it has printed nothing and the port is the default or
    the argument of a [-p]; when it stops, it is with success after the
    help text on standard output, at the first option that is neither
    [-p] nor [-v] (the error stream is as it was when that is [-h], and
    longer by the diagnostic that [getopt] wrote before it returned when
    that is ['?']), or with failure after the line about the bad port on
    the error stream. *)
Theorem X1_option_loop_outcomes argv0 opts : forall port p,
  match parse_options argv0 opts port p with
  | Port port' p' =>
      calls p' = calls p /\ stdout p' = stdout p /\ stderr p' = stderr p /\
      (port' = port \/ In ("p"%char, port') opts)
  | Return status p' =>
      calls p' = calls p /\
      ((status = EXIT_SUCCESS /\ stdout p' = stdout (usage argv0 p) /\
        (((exists optarg, first_other opts = Some ("h"%char, optarg))
          /\ stderr p' = stderr p)
         \/
         exists diagnostic,
           first_other opts = Some ("?"%char, diagnostic) /\
           stderr p' = stderr p ++ [diagnostic]))
       \/
       (status = EXIT_FAILURE /\ stdout p' = stdout p /\
        exists optarg,
          In ("p"%char, optarg) opts /\
          stderr p' = stderr p
                      ++ [("Bad port, got: " ++ optarg ++ nl)%string]))
  | Abort p' =>
      calls p' = calls p /\ stdout p' = stdout p /\ stderr p' = stderr p
  end.
Proof.
  assert (Hgo : forall (o : option_arg) rest status (p p0 p' : process),
    first_other (o :: rest) = first_other rest ->
    calls p0 = calls p -> stdout p0 = stdout p -> stderr p0 = stderr p ->
    stdout (usage argv0 p0) = stdout (usage argv0 p) ->
    calls p' = calls p0 /\
    ((status = EXIT_SUCCESS /\ stdout p' = stdout (usage argv0 p0) /\
      (((exists optarg, first_other rest = Some ("h"%char, optarg))
        /\ stderr p' = stderr p0)
       \/
       exists diagnostic,
         first_other rest = Some ("?"%char, diagnostic) /\
         stderr p' = stderr p0 ++ [diagnostic]))
     \/
     (status = EXIT_FAILURE /\ stdout p' = stdout p0 /\
      exists optarg,
        In ("p"%char, optarg) rest /\
        stderr p' = stderr p0
                    ++ [("Bad port, got: " ++ optarg ++ nl)%string])) ->
    calls p' = calls p /\
    ((status = EXIT_SUCCESS /\ stdout p' = stdout (usage argv0 p) /\
      (((exists optarg, first_other (o :: rest) = Some ("h"%char, optarg))
        /\ stderr p' = stderr p)
       \/
       exists diagnostic,
         first_other (o :: rest) = Some ("?"%char, diagnostic) /\
         stderr p' = stderr p ++ [diagnostic]))
     \/
     (status = EXIT_FAILURE /\ stdout p' = stdout p /\
      exists optarg,
        In ("p"%char, optarg) (o :: rest) /\
        stderr p' = stderr p
                    ++ [("Bad port, got: " ++ optarg ++ nl)%string]))).
  { intros o rest status p p0 p' Hfirst Hc Ho He Hu (H1 & H).
    rewrite Hfirst. split; [congruence|].
    destruct H as [(H2 & H3 & H4) | (H2 & H3 & optarg' & H4 & H5)].
    - left. split; [exact H2|]. split; [congruence|].
      destruct H4 as [[H4 H5] | (d & H4 & H5)].
      + left. split; [exact H4 | congruence].
      + right. exists d. split; [exact H4 | congruence].
    - right. split; [exact H2|]. split; [congruence|].
      exists optarg'. split; [right; exact H4 | congruence]. }
  induction opts as [|[opt optarg] rest IH]; intros port p.
  - simpl. auto.
  - cbn [parse_options].
    destruct (Ascii.eqb opt "p") eqn:Hp.
    { apply Ascii.eqb_eq in Hp. subst opt.
      destruct (strtoul optarg (errno p)) as [portAsLong e].
      destruct (_ || _).
      - simpl. split; [reflexivity|]. right. split; [reflexivity|].
        split; [reflexivity|]. exists optarg. split; [left|]; reflexivity.
      - specialize (IH optarg (set_errno e p)).
        destruct (parse_options argv0 rest optarg (set_errno e p))
          as [port' p'|status p'|p'].
        + simpl in IH.
          destruct IH as (H1 & H2 & H3 & [H4|H4]); repeat split; auto.
          * right. left. now subst.
          * right. right. exact H4.
        + apply (Hgo _ rest status p (set_errno e p) p'); auto.
        + exact IH. }
    destruct (Ascii.eqb opt "h") eqn:Hh.
    { apply Ascii.eqb_eq in Hh. subst opt.
      simpl. split; [reflexivity|]. left. split; [reflexivity|].
      split; [reflexivity|]. left. split; [|reflexivity].
      exists optarg. reflexivity. }
    destruct (Ascii.eqb opt "v") eqn:Hv.
    { apply Ascii.eqb_eq in Hv. subst opt.
      specialize (IH port (set_verboseOutput true p)).
      destruct (parse_options argv0 rest port (set_verboseOutput true p))
        as [port' p'|status p'|p'].
      - simpl in IH.
        destruct IH as (H1 & H2 & H3 & [H4|H4]); repeat split; auto.
        right. right. exact H4.
      - apply (Hgo _ rest status p (set_verboseOutput true p) p'); auto.
      - exact IH. }
    destruct (Ascii.eqb opt "?") eqn:Hq.
    { apply Ascii.eqb_eq in Hq. subst opt.
      simpl. split; [reflexivity|]. left. split; [reflexivity|].
      split; [reflexivity|]. right. exists optarg.
      split; reflexivity. }
    simpl. auto.
Qed.

Lemma set_verbose_twice v p :
  set_verboseOutput v (set_verboseOutput v p) = set_verboseOutput v p.
Proof. reflexivity. Qed.

(** The test of the port, on a string of digits that is too large. *)
Lemma port_test_above_range s v e :
  decimal_value (b s) 0 = Some v -> 65535 < v ->
  let '(portAsLong, e') := strtoul s e in
  (e' =? ERANGE) || (portAsLong >? 65535) = true.
Proof.
  intros Hv Hbig.
  assert (Hne : b s <> []).
  { intros H. rewrite H in Hv. simpl in Hv. injection Hv as <-. lia. }
  destruct (strtoul_all_digits s v e Hv Hne) as [[-> _] | [-> _]].
  - apply orb_true_iff. right. lia.
  - reflexivity.
Qed.

(** X2: a [-p] argument made of decimal digits whose value is above
    65535 stops the server and the client alike, however long the string
    is (a value that does not fit [unsigned long] is caught through
    ERANGE): the exit status is failure, the line about the bad port goes
    to the error stream, and nothing has been called. *)
Theorem X2_port_above_range_is_refused argv0 s v rest port settings p :
  decimal_value (b s) 0 = Some v -> 65535 < v ->
  (exists p',
      parse_options argv0 (("p"%char, s) :: rest) port p
      = Return EXIT_FAILURE p' /\
      stderr p' = stderr p ++ [("Bad port, got: " ++ s ++ nl)%string] /\
      stdout p' = stdout p /\ calls p' = calls p) /\
  (exists p',
      Client.parse_options argv0 (("p"%char, s) :: rest) settings p
      = Client.Return EXIT_FAILURE p' /\
      stderr p' = stderr p ++ [("Bad port, got: " ++ s ++ nl)%string] /\
      stdout p' = stdout p /\ calls p' = calls p).
Proof.
  intros Hv Hbig. pose proof (port_test_above_range s v (errno p) Hv Hbig) as Ht.
  split; cbn [parse_options Client.parse_options Ascii.eqb Bool.eqb];
    destruct (strtoul s (errno p)) as [portAsLong e];
    change (errno (set_errno e p)) with e; rewrite Ht;
    eexists; (split; [reflexivity|]); repeat split; reflexivity.
Qed.

Lemma X2_port_above_range_is_refused_witness :
  (exists p',
      parse_options "server" [("p"%char, "70000"%string)] "8888" start
      = Return EXIT_FAILURE p' /\
      stderr p' = stderr start ++ [("Bad port, got: " ++ "70000" ++ nl)%string]
      /\ stdout p' = stdout start /\ calls p' = calls start) /\
  (exists p',
      Client.parse_options "server" [("p"%char, "70000"%string)]
        (Client.mkSettings "127.0.0.1" "8888" EmptyString false) start
      = Client.Return EXIT_FAILURE p' /\
      stderr p' = stderr start ++ [("Bad port, got: " ++ "70000" ++ nl)%string]
      /\ stdout p' = stdout start /\ calls p' = calls start).
Proof.
  apply (X2_port_above_range_is_refused "server" "70000" 70000 [] "8888"
           (Client.mkSettings "127.0.0.1" "8888" EmptyString false) start).
  - reflexivity.
  - lia.
Defined.

(** X3: a [-p] argument in which [strtoul] finds no number (an empty
    string, or one that starts with a letter) reads as 0 and passes the
    test of the port: the loop goes on with the argument as the port. *)
Theorem X3_argument_without_number_is_taken argv0 s rest port p :
  no_number s = true -> errno p <> ERANGE ->
  parse_options argv0 (("p"%char, s) :: rest) port p
  = parse_options argv0 rest s p.
Proof.
  intros Hs He. cbn [parse_options Ascii.eqb Bool.eqb].
  rewrite (strtoul_no_number s (errno p) Hs), set_errno_same.
  apply Z.eqb_neq in He. rewrite He. reflexivity.
Qed.

Lemma X3_argument_without_number_is_taken_witness :
  parse_options "server" [("p"%char, "ssh"%string)] "8888" start
  = parse_options "server" [] "ssh" start.
Proof.
  apply (X3_argument_without_number_is_taken "server" "ssh" [] "8888" start).
  - reflexivity.
  - discriminate.
Defined.

(** X4: when every option is [-v] or [-p] with a decimal port from 0 to
    65535, the loop gets through: the port is the argument of the last
    [-p] (the one given, with no [-p]) and the flag is set when there is
    a [-v], wherever it stands. *)
Theorem X4_last_port_wins argv0 opts : forall port p,
  forallb goes_on opts = true -> errno p <> ERANGE ->
  parse_options argv0 opts port p
  = Port (last_port opts port)
         (if asks_verbose opts then set_verboseOutput true p else p).
Proof.
  induction opts as [|[opt optarg] rest IH]; intros port p Hall He.
  - reflexivity.
  - cbn [forallb] in Hall. apply andb_prop in Hall. destruct Hall as [Ho Hall].
    unfold goes_on in Ho. cbn [fst snd] in Ho.
    unfold last_port, asks_verbose. cbn [fold_left existsb fst snd].
    fold (last_port rest). fold (asks_verbose rest).
    destruct (Ascii.eqb opt "p") eqn:Hp.
    + apply Ascii.eqb_eq in Hp. subst opt.
      cbn [Ascii.eqb Bool.eqb orb andb] in Ho.
      destruct (decimal_port optarg) as [v|] eqn:Hv; [|discriminate].
      transitivity (parse_options argv0 rest optarg p);
        [exact (decimal_port_accepted argv0 optarg v rest port p Hv He)|].
      cbn [Ascii.eqb Bool.eqb orb]. apply IH; assumption.
    + cbn [orb andb] in Ho. rewrite orb_false_r in Ho.
      cbn [parse_options]. rewrite Hp, Ho.
      assert (Ascii.eqb opt "h" = false) as ->.
      { apply Ascii.eqb_eq in Ho. subst opt. reflexivity. }
      cbn [orb]. rewrite IH by assumption.
      destruct (asks_verbose rest); reflexivity.
Qed.

Lemma X4_last_port_wins_witness :
  parse_options "server"
    [("p"%char, "80"%string); ("v"%char, EmptyString); ("p"%char, "8080"%string)]
    "8888" start
  = Port (last_port [("p"%char, "80"%string); ("v"%char, EmptyString);
                     ("p"%char, "8080"%string)] "8888")
         (if asks_verbose [("p"%char, "80"%string); ("v"%char, EmptyString);
                           ("p"%char, "8080"%string)]
          then set_verboseOutput true start else start).
Proof.
  apply (X4_last_port_wins "server"
           [("p"%char, "80"%string); ("v"%char, EmptyString);
            ("p"%char, "8080"%string)] "8888" start).
  - reflexivity.
  - discriminate.
Defined.

End ServerOptions.

(** ** Binding and the exit status of the server *)

Section ServerStartup.

Import Server.

Lemma parse_options_calls argv0 opts : forall port p,
  match parse_options argv0 opts port p with
  | Port _ p' | Return _ p' | Abort p' => calls p' = calls p
  end.
Proof.
  induction opts as [|[opt optarg] rest IH]; intros port p; [reflexivity|].
  cbn [parse_options].
  destruct (Ascii.eqb opt "p").
  { destruct (strtoul optarg (errno p)) as [portAsLong e].
    destruct (_ || _); [reflexivity | apply (IH optarg (set_errno e p))]. }
  destruct (Ascii.eqb opt "h"); [reflexivity|].
  destruct (Ascii.eqb opt "v");
    [apply (IH port (set_verboseOutput true p))|].
  destruct (Ascii.eqb opt "?"); reflexivity.
Qed.

(** The loop over the addresses: which address it stops at and what it
    has called by then. *)
Lemma bind_first_spec env addr : forall p,
  match bind_first env addr p with
  | (None, p') =>
      forallb (bind_fails env) addr = true /\
      calls p' = calls p ++ flat_map (bind_attempt env) addr /\
      stderr p' = stderr p /\ stdout p' = stdout p /\ errno p' = errno p /\
      verboseOutput p' = verboseOutput p
  | (Some connectFD, p') =>
      exists before a after,
        addr = before ++ a :: after /\
        forallb (bind_fails env) before = true /\
        bind_fails env a = false /\
        connectFD = socket env a /\
        calls p' = calls p ++ flat_map (bind_attempt env) before
                   ++ [Socket a; Bind connectFD a]
  end.
Proof.
  induction addr as [|a next IH]; intros p.
  - simpl. rewrite app_nil_r. repeat split; reflexivity.
  - cbn [bind_first].
    destruct (socket env a =? -1) eqn:Hsock.
    + assert (Hfa : bind_fails env a = true)
        by (unfold bind_fails; rewrite Hsock; reflexivity).
      assert (Hat : bind_attempt env a = [Socket a])
        by (unfold bind_attempt; rewrite Hsock; reflexivity).
      specialize (IH (sys (Socket a) p)).
      destruct (bind_first env next (sys (Socket a) p)) as [[fd|] p'].
      * destruct IH as (before & a' & after & -> & Hb & Ha & Hfd & Hc).
        exists (a :: before), a', after.
        cbn [forallb flat_map]. rewrite Hfa, Hat, Hc. simpl.
        rewrite <- !app_assoc. repeat split; auto.
      * destruct IH as (Hf & Hc & He & Ho & Hn & Hv).
        cbn [forallb flat_map]. rewrite Hfa, Hat, Hc. simpl.
        rewrite <- app_assoc. repeat split; auto.
    + destruct (bind env (socket env a) a =? 0) eqn:Hbind.
      * exists [], a, next. unfold bind_fails. rewrite Hsock, Hbind. simpl.
        rewrite <- app_assoc. repeat split; reflexivity.
      * assert (Hfa : bind_fails env a = true)
          by (unfold bind_fails; rewrite Hsock, Hbind; reflexivity).
        assert (Hat : bind_attempt env a
                      = [Socket a; Bind (socket env a) a; Close (socket env a)])
          by (unfold bind_attempt; rewrite Hsock; reflexivity).
        specialize (IH (sys (Close (socket env a))
                            (sys (Bind (socket env a) a) (sys (Socket a) p)))).
        destruct (bind_first env next _) as [[fd|] p'].
        -- destruct IH as (before & a' & after & -> & Hb & Ha & Hfd & Hc).
           exists (a :: before), a', after.
           cbn [forallb flat_map]. rewrite Hfa, Hat, Hc. simpl.
           rewrite <- !app_assoc. repeat split; auto.
        -- destruct IH as (Hf & Hc & He & Ho & Hn & Hv).
           cbn [forallb flat_map]. rewrite Hfa, Hat, Hc. simpl.
           rewrite <- !app_assoc. repeat split; auto.
Qed.

(** X5: the server takes the first address on which [socket] and [bind]
    both succeed and tries no later one; for every address before it, it
    has called [socket] and, when that gave a descriptor, [bind] and then
    [close] on that descriptor.  When no address will do, it has gone
    through all of them in this way and holds no descriptor. *)
Theorem X5_first_address_that_binds env addr p :
  match bind_first env addr p with
  | (None, p') =>
      forallb (bind_fails env) addr = true /\
      calls p' = calls p ++ flat_map (bind_attempt env) addr
  | (Some connectFD, p') =>
      exists before a after,
        addr = before ++ a :: after /\
        forallb (bind_fails env) before = true /\
        bind_fails env a = false /\
        connectFD = socket env a /\
        calls p' = calls p ++ flat_map (bind_attempt env) before
                   ++ [Socket a; Bind connectFD a]
  end.
Proof.
  pose proof (bind_first_spec env addr p) as H.
  destruct (bind_first env addr p) as [[fd|] p']; [exact H|].
  destruct H as (H1 & H2 & _). auto.
Qed.

(** X6: when the port does not resolve, or no address can be bound, the
    server exits with failure after one line on the error stream; it has
    closed every socket it opened and has not called [listen]. *)
Theorem X6_start_up_failure env inp port p :
  fst (getaddrinfo env port) <> 0 \/
  forallb (bind_fails env) (snd (getaddrinfo env port)) = true ->
  exists p' line,
    serve env inp port p = (Exited EXIT_FAILURE, p') /\
    stderr p' = stderr p ++ [line] /\
    calls p' = calls p
               ++ (if fst (getaddrinfo env port) =? 0
                   then flat_map (bind_attempt env) (snd (getaddrinfo env port))
                   else []).
Proof.
  intros H. unfold serve.
  destruct (getaddrinfo env port) as [s addrHead]. cbn [fst snd] in *.
  destruct (s =? 0) eqn:Hs; cbn [negb].
  - destruct H as [H|H]; [apply Z.eqb_eq in Hs; contradiction|].
    set (p1 := verboseprint _ (verboseprint _ p)).
    pose proof (bind_first_spec env addrHead p1) as Hb.
    destruct (bind_first env addrHead p1) as [[fd|] p2].
    + destruct Hb as (before & a & after & -> & _ & Ha & _).
      rewrite forallb_app in H. cbn [forallb] in H. rewrite Ha in H.
      rewrite andb_false_r in H. discriminate.
    + destruct Hb as (_ & Hc & He & _).
      eexists. eexists. split; [reflexivity|].
      unfold perror. cbn [stderr calls cerr]. rewrite He, Hc.
      unfold p1. autorewrite with frame. split; reflexivity.
  - eexists. eexists. split; [reflexivity|].
    cbn [stderr calls cerr]. autorewrite with frame.
    rewrite app_nil_r. split; reflexivity.
Qed.

Lemma X6_start_up_failure_witness :
  exists p' line,
    serve with_services (mkInput 3 "server" [] [] []) "80x" start
    = (Exited EXIT_FAILURE, p') /\
    stderr p' = stderr start ++ [line] /\
    calls p' = calls start
               ++ (if fst (getaddrinfo with_services "80x") =? 0
                   then flat_map (bind_attempt with_services)
                                 (snd (getaddrinfo with_services "80x"))
                   else []).
Proof.
  apply (X6_start_up_failure with_services (mkInput 3 "server" [] [] [])
           "80x" start).
  left. vm_compute. discriminate.
Defined.

Lemma bind_attempt_no_listen env addr c :
  In c (flat_map (bind_attempt env) addr) -> is_listen c = false.
Proof.
  induction addr as [|a next IH]; simpl; [tauto|].
  intros H. apply in_app_or in H. destruct H as [H|H]; [|auto].
  unfold bind_attempt in H. destruct (socket env a =? -1); simpl in H;
    intuition (subst; reflexivity).
Qed.

(** The child returns from [main] with success. *)
Lemma main_loop_return connectFD events : forall p status p',
  main_loop connectFD events p = (LoopReturn status, p') ->
  status = EXIT_SUCCESS.
Proof.
  induction events as [|[w a] rest IH]; intros p status p' H.
  - discriminate.
  - cbn [main_loop] in H.
    destruct (ppoll w 0 p) as [[pollval rev] p1].
    destruct (errno p1 =? EINTR); [discriminate|].
    destruct (pollval =? -1); [discriminate|].
    destruct (pollval >? 0).
    + destruct a as [e|sessFD peer f]; [discriminate|].
      destruct peer as [[h s]|]; destruct f as [e|session|pid];
        try discriminate;
        try (destruct (handle_request _ _ _ _ _) as [[why|] p2];
             [destruct (killed_by why);
              [discriminate | injection H as <- _; reflexivity]
             | discriminate]);
        exact (IH _ _ _ H).
    + destruct (negb (stillHandlingRequests p1)); [discriminate|].
      exact (IH _ _ _ H).
Qed.

(** X9: the server reports a failure only for what goes wrong before it
    listens.  Once [listen] has been called, a run of [main] that returns
    does so with status 0, also when the loop was left because [ppoll] or
    [accept] failed. *)
Theorem X9_status_zero_once_listening env inp status p' fd backlog :
  main env inp = (Exited status, p') ->
  In (Listen fd backlog) (calls p') ->
  status = 0.
Proof.
  unfold main. intros H Hin.
  destruct (sigprocmask env <? 0).
  { injection H as _ <-. destruct Hin. }
  set (p0 := set_serverpid (getpid env) start) in *.
  assert (Hparse : match (if argc inp >? 1
                          then parse_options (argv0 inp) (options inp) "8888" p0
                          else Port "8888" p0) with
                   | Port _ p1 | Return _ p1 | Abort p1 => calls p1 = []
                   end).
  { destruct (argc inp >? 1); [|reflexivity].
    apply (parse_options_calls (argv0 inp) (options inp) "8888" p0). }
  destruct (if argc inp >? 1 then _ else _) as [port p1|st p1|p1].
  2:{ injection H as _ <-. rewrite Hparse in Hin. destruct Hin. }
  2:{ discriminate. }
  unfold serve in H.
  set (p2 := verboseprint _ (verboseprint _ p1)) in H.
  assert (Hc2 : calls p2 = [])
    by (unfold p2; autorewrite with frame; exact Hparse).
  destruct (getaddrinfo env port) as [s addrHead].
  destruct (negb (s =? 0)).
  { injection H as _ <-. cbn [calls cerr] in Hin. rewrite Hc2 in Hin.
    destruct Hin. }
  pose proof (bind_first_spec env addrHead p2) as Hb.
  destruct (bind_first env addrHead p2) as [[connectFD|] p3].
  - destruct (main_loop connectFD (connections inp) _) as [[| |st|sig|] p4] eqn:Hl;
      try discriminate.
    + destruct (reap (children inp) p4) as [[|] p5]; [|discriminate].
      injection H as <- _. reflexivity.
    + injection H as <- _. apply (main_loop_return _ _ _ _ _ Hl).
  - destruct Hb as (_ & Hc & _). injection H as _ <-.
    unfold perror in Hin. cbn [calls cerr] in Hin. rewrite Hc, Hc2 in Hin.
    apply bind_attempt_no_listen in Hin. discriminate.
Qed.

Lemma X9_status_zero_once_listening_witness :
  let inp := mkInput 1 "server" []
                     [connection 4 101; (Ready POLLIN, AcceptError 24)]
                     [(101, None); (-1, Some ECHILD)] in
  main plain inp = (Exited 0, snd (main plain inp)) /\
  In (Listen 3 64) (calls (snd (main plain inp))) /\
  0 = 0.
Proof.
  cbv zeta.
  set (inp := mkInput 1 "server" []
                      [connection 4 101; (Ready POLLIN, AcceptError 24)]
                      [(101, None); (-1, Some ECHILD)]).
  assert (H1 : main plain inp = (Exited 0, snd (main plain inp)))
    by (vm_compute; reflexivity).
  assert (H2 : In (Listen 3 64) (calls (snd (main plain inp))))
    by (vm_compute; tauto).
  split; [exact H1|]. split; [exact H2|].
  exact (X9_status_zero_once_listening plain inp 0 _ 3 64 H1 H2).
Defined.

End ServerStartup.

(** ** The main loop *)

Section MainLoop.

Import Server.

(** The turn in which the parent admits a client. *)
Lemma main_loop_admits connectFD revents sessFD peer pid
      (rest : list listen_event) p :
  errno p <> EINTR ->
  exists q,
    main_loop connectFD
              (((Ready revents, Accepted sessFD peer (ForkParent pid))
                : listen_event) :: rest) p
    = main_loop connectFD rest q /\
    errno q = errno p /\
    stillHandlingRequests q = stillHandlingRequests p /\
    actvConns q = wrap_int (actvConns p + 1) /\
    calls q = calls p ++ [Accept connectFD; Fork].
Proof.
  intros He. apply Z.eqb_neq in He. cbn [main_loop ppoll]. rewrite He.
  change (1 =? -1) with false. change (1 >? 0) with true. cbv iota.
  destruct peer as [[h s]|]; eexists; (split; [reflexivity|]);
    repeat first [progress autorewrite with frame
                 | progress cbn [errno stillHandlingRequests actvConns calls
                                 set_actvConns sys cerr]];
    rewrite <- ?app_assoc; repeat split; reflexivity.
Qed.

(** A stretch of turns in which clients are admitted and waits time
    out, and the state in which the loop looks at what follows. *)
Lemma main_loop_admissions connectFD events : forall rest p,
  forallb (fun ev => admits ev || times_out ev) events = true ->
  errno p <> EINTR -> stillHandlingRequests p = true ->
  0 <= actvConns p ->
  actvConns p + Z.of_nat (List.length (filter admits events)) < 2 ^ 31 ->
  exists q,
    main_loop connectFD (events ++ rest) p = main_loop connectFD rest q /\
    actvConns q
    = actvConns p + Z.of_nat (List.length (filter admits events)) /\
    stillHandlingRequests q = true /\
    errno q = errno p /\
    calls q = calls p ++ admission_calls connectFD events.
Proof.
  induction events as [|[w a] events IH]; intros rest p Hall He Hflag H0 Hmax.
  - exists p. simpl. rewrite app_nil_r. repeat split; auto; lia.
  - cbn [forallb] in Hall. apply andb_prop in Hall. destruct Hall as [Hev Hall].
    unfold admission_calls. cbn [filter flat_map app].
    fold (admission_calls connectFD events).
    destruct (admits (w, a)) eqn:Hadm.
    + destruct w as [revents| | |]; try discriminate.
      destruct a as [e|sessFD peer [e|session|pid]]; try discriminate.
      destruct (main_loop_admits connectFD revents sessFD peer pid
                                 (events ++ rest) p He)
        as (q & -> & Hqe & Hqf & Hqa & Hqc).
      cbn [filter admits List.length] in Hmax.
      rewrite wrap_int_small in Hqa by lia.
      destruct (IH rest q Hall) as (q' & -> & H2 & H3 & H4 & H5);
        try congruence; try lia.
      exists q'. rewrite H2, H4, H5, Hqa, Hqc, Hqe, <- app_assoc.
      cbn [List.length]. repeat split; auto. lia.
    + cbn [orb] in Hev. destruct w as [revents| | |]; try discriminate.
      rewrite timed_out_wait_checks_flag by exact He. rewrite Hflag.
      exact (IH rest p Hall He Hflag H0 Hmax).
Qed.

(** X7: while the shutdown flag is set, a run of the main loop in which
    clients are admitted and waits time out never leaves the loop: the
    counter has grown by one for every client, the flag is still set, and
    the parent has called [accept] and [fork] once per client and nothing
    else. *)
Theorem X7_every_admitted_client_is_counted connectFD events p :
  forallb (fun ev => admits ev || times_out ev) events = true ->
  errno p <> EINTR -> stillHandlingRequests p = true ->
  0 <= actvConns p ->
  actvConns p + Z.of_nat (List.length (filter admits events)) < 2 ^ 31 ->
  fst (main_loop connectFD events p) = LoopBlocked /\
  actvConns (snd (main_loop connectFD events p))
  = actvConns p + Z.of_nat (List.length (filter admits events)) /\
  stillHandlingRequests (snd (main_loop connectFD events p)) = true /\
  calls (snd (main_loop connectFD events p))
  = calls p ++ admission_calls connectFD events.
Proof.
  intros Hall He Hflag H0 Hmax.
  destruct (main_loop_admissions connectFD events [] p Hall He Hflag H0 Hmax)
    as (q & Hrun & Ha & Hf & _ & Hc).
  rewrite app_nil_r in Hrun. rewrite Hrun. cbn [main_loop fst snd]. auto.
Qed.

(** X23: the first SIGCHLD that the parent handles ends the main loop,
    however many clients it has admitted: the counter is one below the
    number admitted, the shutdown flag is cleared only if that number was
    one, and no later client is accepted. *)
Theorem X23_first_signal_ends_the_loop connectFD events a rest p :
  forallb (fun ev => admits ev || times_out ev) events = true ->
  errno p <> EINTR -> stillHandlingRequests p = true ->
  0 <= actvConns p ->
  actvConns p + Z.of_nat (List.length (filter admits events)) < 2 ^ 31 ->
  let r := main_loop connectFD (events ++ (Interrupted, a) :: rest) p in
  let n := actvConns p + Z.of_nat (List.length (filter admits events)) in
  fst r = LoopBreak /\
  actvConns (snd r) = n - 1 /\
  stillHandlingRequests (snd r) = negb (n =? 1) /\
  calls (snd r) = calls p ++ admission_calls connectFD events.
Proof.
  intros Hall He Hflag H0 Hmax. cbv zeta.
  destruct (main_loop_admissions connectFD events ((Interrupted, a) :: rest) p
                                 Hall He Hflag H0 Hmax)
    as (q & -> & Ha & Hf & _ & Hc).
  rewrite interrupted_wait_breaks. cbn [fst snd].
  cbn [actvConns stillHandlingRequests calls set_errno].
  rewrite handler_actvConns, handler_flag, handler_calls, Ha, Hf, Hc.
  rewrite wrap_int_small by lia.
  split; [reflexivity|]. split; [reflexivity|]. split; [|reflexivity].
  destruct (Z.eqb_spec (actvConns p
                        + Z.of_nat (List.length (filter admits events)) - 1) 0);
    destruct (Z.eqb_spec (actvConns p
                          + Z.of_nat (List.length (filter admits events))) 1);
    try reflexivity; lia.
Qed.

Lemma X23_first_signal_ends_the_loop_witness :
  let events := [connection 4 101; connection 5 102; connection 6 103] in
  let r := main_loop 3 (events ++ (Interrupted, AcceptError 0)
                               :: [connection 7 104]) start in
  let n := actvConns start + Z.of_nat (List.length (filter admits events)) in
  fst r = LoopBreak /\
  actvConns (snd r) = n - 1 /\
  stillHandlingRequests (snd r) = negb (n =? 1) /\
  calls (snd r) = calls start ++ admission_calls 3 events.
Proof.
  apply (X23_first_signal_ends_the_loop 3
           [connection 4 101; connection 5 102; connection 6 103]
           (AcceptError 0) [connection 7 104] start).
  - reflexivity.
  - discriminate.
  - reflexivity.
  - vm_compute. discriminate.
  - vm_compute. reflexivity.
Defined.

Lemma X7_every_admitted_client_is_counted_witness :
  let events := [connection 4 101; timeout; connection 5 102] in
  fst (main_loop 3 events start) = LoopBlocked /\
  actvConns (snd (main_loop 3 events start))
  = actvConns start + Z.of_nat (List.length (filter admits events)) /\
  stillHandlingRequests (snd (main_loop 3 events start)) = true /\
  calls (snd (main_loop 3 events start))
  = calls start ++ admission_calls 3 events.
Proof.
  apply (X7_every_admitted_client_is_counted 3
           [connection 4 101; timeout; connection 5 102] start).
  - reflexivity.
  - discriminate.
  - reflexivity.
  - vm_compute. discriminate.
  - vm_compute. reflexivity.
Defined.

(** X8: in the parent, the shutdown flag is cleared only by a run of the
    handler that leaves the counter at 0, and the loop ends in that very
    turn: a run of the main loop that starts with the flag set and ends
    with it cleared has left the loop with the counter at 0 and [errno] at
    EINTR. *)
Theorem X8_flag_cleared_only_at_zero connectFD events : forall p,
  forallb in_parent events = true ->
  stillHandlingRequests p = true ->
  stillHandlingRequests (snd (main_loop connectFD events p)) = false ->
  fst (main_loop connectFD events p) = LoopBreak /\
  actvConns (snd (main_loop connectFD events p)) = 0 /\
  errno (snd (main_loop connectFD events p)) = EINTR.
Proof.
  induction events as [|[w a] rest IH]; intros p Hpar Hflag.
  - simpl. congruence.
  - cbn [forallb] in Hpar. apply andb_prop in Hpar. destruct Hpar as [Hev Hpar].
    destruct w as [revents| | |e].
    + destruct (Z.eq_dec (errno p) EINTR) as [He|He].
      { cbn [main_loop ppoll]. rewrite He. simpl. congruence. }
      destruct a as [e|sessFD peer [e|session|pid]].
      * cbn [main_loop ppoll]. apply Z.eqb_neq in He. rewrite He.
        simpl. congruence.
      * cbn [main_loop ppoll]. apply Z.eqb_neq in He. rewrite He.
        destruct peer as [[h s]|]; simpl; autorewrite with frame; simpl;
          autorewrite with frame; congruence.
      * discriminate.
      * destruct (main_loop_admits connectFD revents sessFD peer pid rest p He)
          as (q & -> & Hqe & Hqf & Hqa & Hqc).
        apply IH; congruence.
    + destruct (Z.eq_dec (errno p) EINTR) as [He|He].
      { cbn [main_loop ppoll]. rewrite He. simpl. congruence. }
      rewrite timed_out_wait_checks_flag by exact He. rewrite Hflag.
      apply IH; assumption.
    + rewrite interrupted_wait_breaks. cbn [fst snd].
      cbn [stillHandlingRequests actvConns errno set_errno].
      rewrite handler_flag, handler_actvConns.
      destruct (wrap_int (actvConns p - 1) =? 0) eqn:Hz; [|congruence].
      apply Z.eqb_eq in Hz. auto.
    + cbn [main_loop ppoll]. cbn [errno set_errno].
      destruct (e =? EINTR); [simpl; congruence|].
      simpl. congruence.
Qed.

Lemma X8_flag_cleared_only_at_zero_witness :
  let events := [connection 4 101; timeout; child_signal] in
  fst (main_loop 3 events start) = LoopBreak /\
  actvConns (snd (main_loop 3 events start)) = 0 /\
  errno (snd (main_loop 3 events start)) = EINTR.
Proof.
  apply (X8_flag_cleared_only_at_zero 3
           [connection 4 101; timeout; child_signal] start).
  - reflexivity.
  - reflexivity.
  - vm_compute. reflexivity.
Defined.

(** X10: the loop after the main loop calls [waitpid] once for every
    child it reaps and once more, and ends at the call that finds no
    child left (ECHILD); it does not end before, as long as [errno] is not
    ECHILD already and no call returns 0. *)
Theorem X10_every_child_is_reaped pids : forall last rest p,
  Forall (fun pid => pid <> 0) pids -> last <> 0 -> errno p <> ECHILD ->
  fst (reap (reaped pids ++ (last, Some ECHILD) :: rest) p) = true /\
  calls (snd (reap (reaped pids ++ (last, Some ECHILD) :: rest) p))
  = calls p ++ repeat Waitpid (S (List.length pids)) /\
  errno (snd (reap (reaped pids ++ (last, Some ECHILD) :: rest) p)) = ECHILD.
Proof.
  induction pids as [|pid pids IH]; intros last rest p Hpids Hlast He.
  - cbn [reaped map app reap]. apply Z.eqb_neq in Hlast. rewrite Hlast.
    cbn [errno set_errno sys]. rewrite Z.eqb_refl. simpl. auto.
  - inversion Hpids as [|? ? Hpid Hrest]; subst.
    cbn [reaped map app reap]. fold (reaped pids).
    apply Z.eqb_neq in Hpid. rewrite Hpid. cbn [errno sys].
    apply Z.eqb_neq in He. rewrite He.
    destruct (IH last rest (sys Waitpid p) Hrest Hlast) as (H1 & H2 & H3).
    { cbn [errno sys]. apply Z.eqb_neq. exact He. }
    rewrite H1, H2, H3. cbn [calls sys List.length repeat].
    rewrite <- app_assoc. auto.
Qed.

Lemma X10_every_child_is_reaped_witness :
  fst (reap (reaped [101; 102] ++ (-1, Some ECHILD) :: []) start) = true /\
  calls (snd (reap (reaped [101; 102] ++ (-1, Some ECHILD) :: []) start))
  = calls start ++ repeat Waitpid (S (List.length [101; 102])) /\
  errno (snd (reap (reaped [101; 102] ++ (-1, Some ECHILD) :: []) start))
  = ECHILD.
Proof.
  apply (X10_every_child_is_reaped [101; 102] (-1) [] start).
  - repeat constructor; discriminate.
  - discriminate.
  - discriminate.
Defined.

End MainLoop.

(** ** Sessions of the worker *)

Section Sessions.

Import Server.

(** A turn in which a command arrives and is answered. *)
Lemma request_loop_serves sessFD data output rest revents p :
  data <> [] ->
  exists q,
    request_loop sessFD (request POLLIN data output :: rest) revents p
    = request_loop sessFD rest POLLIN q /\
    calls q = calls p ++ [Popen (cstr data);
                          Send sessFD (captured output ++ [NUL])] /\
    stderr q = stderr p /\ serverpid q = serverpid p /\ errno q = errno p.
Proof.
  intros Hdata. unfold request. cbn [request_loop ppoll s_poll s_recv
                                     s_popen s_send].
  change ((1 =? -1) && negb (errno p =? EINTR)) with false.
  change (negb (Z.land POLLIN POLLIN =? 0)) with true. cbv iota.
  assert ((Z.of_nat (List.length data) <=? 0) = false) as ->
      by (destruct data; [congruence | cbn [List.length]; apply Z.leb_gt; lia]).
  assert ((Z.of_nat (List.length (captured output)) + 1 <? 0) = false) as ->
      by (apply Z.ltb_ge; lia).
  rewrite cstr_terminated. eexists. split; [reflexivity|].
  cbn [calls stderr serverpid errno sys]. autorewrite with frame.
  rewrite <- app_assoc. repeat split; reflexivity.
Qed.

Lemma request_loop_requests sessFD reqs : forall rest revents p,
  Forall (fun r => fst r <> []) reqs ->
  exists q,
    request_loop sessFD (requests reqs ++ rest) revents p
    = request_loop sessFD rest
        (match reqs with [] => revents | _ => POLLIN end) q /\
    calls q = calls p ++ served sessFD reqs /\
    stderr q = stderr p /\ serverpid q = serverpid p /\ errno q = errno p.
Proof.
  induction reqs as [|[data output] reqs IH]; intros rest revents p Hne.
  - exists p. simpl. rewrite app_nil_r. repeat split; reflexivity.
  - inversion Hne as [|? ? Hdata Hrest]; subst. cbn [fst] in Hdata.
    cbn [requests map app fst snd]. fold (requests reqs).
    destruct (request_loop_serves sessFD data output (requests reqs ++ rest)
                                  revents p Hdata)
      as (q1 & -> & Hc1 & He1 & Hs1 & Hn1).
    destruct (IH rest POLLIN q1 Hrest) as (q & Hq & Hc & He & Hs & Hn).
    exists q. split.
    + rewrite Hq. destruct reqs; reflexivity.
    + unfold served in *. cbn [flat_map fst snd].
      rewrite Hc, Hc1, <- app_assoc. repeat split; congruence.
Qed.

(** X11: a session of any number of commands, each arriving in one
    [recv], followed by the end of the input: the worker runs every
    command and sends its response before it looks at the next one, in the
    order of arrival, then leaves its loop through the [break] after
    [recv] returned 0 and tears down; it prints no error. *)
Theorem X11_commands_are_served_in_order sessFD host service reqs rest p :
  Forall (fun r => fst r <> []) reqs ->
  exists p',
    handle_request sessFD host service (requests reqs ++ end_of_input :: rest) p
    = (Some (RecvEnded 0), p') /\
    calls p' = calls p ++ served sessFD reqs
               ++ teardown_calls sessFD (serverpid p) /\
    stderr p' = stderr p.
Proof.
  intros Hne. unfold handle_request.
  destruct (request_loop_requests sessFD reqs (end_of_input :: rest) 0 p Hne)
    as (q & -> & Hc & He & Hs & Hn).
  unfold end_of_input, request.
  cbn [request_loop ppoll s_poll s_recv s_popen s_send].
  change ((1 =? -1) && negb (errno q =? EINTR)) with false.
  change (negb (Z.land POLLIN POLLIN =? 0)) with true. cbv iota.
  change (Z.of_nat (List.length (@nil ascii)) <=? 0) with true. cbv iota.
  eexists. split; [reflexivity|].
  rewrite teardown_calls_eq, Hc, Hs, <- app_assoc. split; [reflexivity|].
  unfold teardown. cbn [stderr sys]. autorewrite with frame. exact He.
Qed.

Lemma X11_commands_are_served_in_order_witness :
  exists p',
    handle_request 4 "localhost" "40000"
      (requests [(b "ls", b "a"); (b "pwd", b "/")] ++ end_of_input :: []) start
    = (Some (RecvEnded 0), p') /\
    calls p' = calls start ++ served 4 [(b "ls", b "a"); (b "pwd", b "/")]
               ++ teardown_calls 4 (serverpid start) /\
    stderr p' = stderr start.
Proof.
  apply (X11_commands_are_served_in_order 4 "localhost" "40000"
           [(b "ls", b "a"); (b "pwd", b "/")] [] start).
  repeat constructor; discriminate.
Defined.

(** X12: of the bytes of one [recv] the worker uses those before the
    first NUL and no others: two turns that differ only in what follows
    the first NUL of the bytes received go the same way, so a second
    command in the same buffer is never run. *)
Theorem X12_only_the_first_string_counts
        sessFD w po se data1 data2 rest revents p :
  data1 <> [] -> data2 <> [] -> cstr data1 = cstr data2 ->
  request_loop sessFD (mkSession w (RecvBytes data1) po se :: rest) revents p
  = request_loop sessFD (mkSession w (RecvBytes data2) po se :: rest) revents p.
Proof.
  intros H1 H2 Hc.
  cbn [request_loop s_poll s_recv s_popen s_send].
  destruct (ppoll w revents p) as [[pollval revents'] p1].
  rewrite !cstr_terminated, Hc.
  assert ((Z.of_nat (List.length data1) <=? 0) = false) as ->
      by (destruct data1; [congruence | cbn [List.length]; apply Z.leb_gt; lia]).
  assert ((Z.of_nat (List.length data2) <=? 0) = false) as ->
      by (destruct data2; [congruence | cbn [List.length]; apply Z.leb_gt; lia]).
  reflexivity.
Qed.

Lemma X12_only_the_first_string_counts_witness :
  request_loop 4
    [mkSession (Ready POLLIN) (RecvBytes (b "ls" ++ NUL :: b "pwd" ++ [NUL]))
               (PopenPipe (b "a")) (SendCount 2)] 0 start
  = request_loop 4
      [mkSession (Ready POLLIN) (RecvBytes (b "ls" ++ [NUL]))
                 (PopenPipe (b "a")) (SendCount 2)] 0 start.
Proof.
  apply (X12_only_the_first_string_counts 4 (Ready POLLIN) (PopenPipe (b "a"))
           (SendCount 2) (b "ls" ++ NUL :: b "pwd" ++ [NUL]) (b "ls" ++ [NUL])
           [] 0 start).
  - discriminate.
  - discriminate.
  - vm_compute. reflexivity.
Defined.

Lemma request_loop_stderr sessFD events : forall revents p,
  stderr (snd (request_loop sessFD events revents p))
  = stderr p
    ++ match fst (request_loop sessFD events revents p) with
       | Some why =>
           complaint_lines why
                           (errno (snd (request_loop sessFD events revents p)))
       | None => []
       end.
Proof.
  induction events as [|ev rest IH]; intros revents p.
  - simpl. now rewrite app_nil_r.
  - cbn [request_loop].
    destruct (ppoll (s_poll ev) revents p) as [[pollval revents'] p1] eqn:Hp.
    destruct (ppoll_frame (s_poll ev) revents p) as (_ & _ & He & _).
    rewrite Hp in He. cbn [snd] in He.
    destruct ((pollval =? -1) && negb (errno p1 =? EINTR)).
    { cbn [fst snd]. unfold perror, complaint_lines. cbn [stderr errno cerr
                                                          complaint].
      rewrite He. reflexivity. }
    destruct (negb (Z.land revents' POLLIN =? 0)).
    2:{ destruct (negb (Z.land revents' POLLHUP =? 0)).
        - cbn [fst snd complaint_lines complaint]. now rewrite app_nil_r.
        - rewrite IH, He. reflexivity. }
    destruct (s_recv ev) as [e|data].
    { cbn [fst snd Z.leb Z.compare]. unfold complaint_lines.
      cbn [stderr set_errno complaint]. now rewrite app_nil_r. }
    destruct (Z.of_nat (List.length data) <=? 0).
    { cbn [fst snd]. unfold complaint_lines. cbn [complaint].
      now rewrite app_nil_r. }
    destruct (s_popen ev) as [e|output].
    { cbn [fst snd]. unfold perror, complaint_lines.
      cbn [stderr errno cerr set_errno sys complaint].
      autorewrite with frame. rewrite He. reflexivity. }
    destruct (s_send ev) as [e|n].
    { destruct (e =? EPIPE).
      - cbn [fst snd]. unfold complaint_lines. cbn [stderr sys complaint].
        autorewrite with frame. rewrite He. now rewrite app_nil_r.
      - cbn [fst snd]. unfold perror, complaint_lines.
        cbn [stderr errno cerr set_errno sys complaint].
        autorewrite with frame. rewrite He. reflexivity. }
    destruct (n <? 0).
    { cbn [fst snd]. unfold perror, complaint_lines.
      cbn [stderr errno cerr set_errno sys complaint].
      autorewrite with frame. rewrite He. reflexivity. }
    rewrite IH. cbn [stderr sys]. autorewrite with frame. rewrite He.
    reflexivity.
Qed.

(** X13: a worker that has left its loop has written one line to the
    error stream, through [perror], when [ppoll] or [popen] failed or
    [send] returned an error, and none when [recv] returned 0 or failed,
    the peer hung up, or SIGPIPE killed the worker inside [send]: a
    failed [recv] ends the session as silently as its end does. *)
Theorem X13_one_complaint_per_failure sessFD host service events p why p' :
  handle_request sessFD host service events p = (Some why, p') ->
  stderr p' = stderr p ++ complaint_lines why (errno p').
Proof.
  unfold handle_request. intros H.
  pose proof (request_loop_stderr sessFD events 0 p) as Hs.
  destruct (request_loop sessFD events 0 p) as [[why'|] q]; [|discriminate].
  cbn [fst snd] in Hs.
  destruct (killed_by why'); injection H as <- <-; [exact Hs|].
  unfold teardown. cbn [stderr errno sys]. autorewrite with frame.
  exact Hs.
Qed.

Lemma X13_one_complaint_per_failure_witness :
  stderr (snd (handle_request 4 "localhost" "40000"
                 [mkSession (Ready POLLIN) (RecvError 104) (PopenPipe [])
                            (SendCount 0)] start))
  = stderr start
    ++ complaint_lines (RecvEnded (-1))
         (errno (snd (handle_request 4 "localhost" "40000"
                        [mkSession (Ready POLLIN) (RecvError 104)
                                   (PopenPipe []) (SendCount 0)] start))).
Proof.
  apply (X13_one_complaint_per_failure 4 "localhost" "40000"
           [mkSession (Ready POLLIN) (RecvError 104) (PopenPipe [])
                      (SendCount 0)] start (RecvEnded (-1))).
  reflexivity.
Defined.

(** X24: a worker that leaves its loop through a [break] that no signal
    follows (after a failed [ppoll], after [recv] returned 0 or failed,
    after a [send] that returned an error, or on POLLHUP) then frees the
    two strings, shuts the session descriptor down in both directions,
    closes it and sends one SIGCHLD to the server, in this order; inside
    the loop it has called nothing but [popen] and [send], so this is the
    only [close] and the only [kill] of the worker. *)
Theorem X24_teardown_after_every_break
        sessFD host service events p why p' :
  handle_request sessFD host service events p = (Some why, p') ->
  killed_by why = None ->
  exists during,
    calls p' = calls p ++ during ++ teardown_calls sessFD (serverpid p) /\
    Forall session_call during /\
    filter is_close (during ++ teardown_calls sessFD (serverpid p))
    = [Close sessFD] /\
    filter is_kill (during ++ teardown_calls sessFD (serverpid p))
    = [Kill (serverpid p) SIGCHLD].
Proof.
  unfold handle_request. intros H Hk.
  destruct (request_loop_calls sessFD events 0 p) as (Hs & during & Hc & Hf).
  destruct (request_loop sessFD events 0 p) as [[why'|] p1]; [|discriminate].
  destruct (killed_by why') eqn:Hk'.
  { injection H as <- _. congruence. }
  injection H as _ <-. simpl in Hs, Hc.
  exists during. split; [|split; [exact Hf|]].
  - rewrite teardown_calls_eq, Hc, Hs, app_assoc. reflexivity.
  - assert (Hclose : forall c, session_call c -> is_close c = false)
      by (intros [] Hcall; (reflexivity || destruct Hcall)).
    assert (Hkill : forall c, session_call c -> is_kill c = false)
      by (intros [] Hcall; (reflexivity || destruct Hcall)).
    rewrite !filter_app, (session_calls_only is_close during Hclose Hf),
      (session_calls_only is_kill during Hkill Hf).
    split; reflexivity.
Qed.

Lemma X24_teardown_after_every_break_witness :
  exists during,
    calls (snd (handle_request 4 "localhost" "40000"
                  [request POLLIN (b "ls") (b "a"); end_of_input] start))
    = calls start ++ during ++ teardown_calls 4 (serverpid start) /\
    Forall session_call during /\
    filter is_close (during ++ teardown_calls 4 (serverpid start))
    = [Close 4] /\
    filter is_kill (during ++ teardown_calls 4 (serverpid start))
    = [Kill (serverpid start) SIGCHLD].
Proof.
  apply (X24_teardown_after_every_break 4 "localhost" "40000"
           [request POLLIN (b "ls") (b "a"); end_of_input] start
           (RecvEnded 0)).
  - reflexivity.
  - reflexivity.
Defined.

End Sessions.

(** ** The client *)

Section ClientSessions.

Import Client.

Lemma reads_on_last c :
  reads_on c = true -> exists c' x, c = c' ++ [x] /\ Ascii.eqb x NUL = false.
Proof.
  unfold reads_on. destruct (rev c) as [|x l] eqn:Hr; [discriminate|].
  intros H. apply negb_true_iff in H. exists (rev l), x. split; [|exact H].
  rewrite <- (rev_involutive c), Hr. reflexivity.
Qed.

(** The loop reads on over chunks that do not end in NUL. *)
Lemma receive_reads_on sessFD chunks : forall reads bytesread p,
  forallb reads_on chunks = true -> 0 <= bytesread ->
  bytesread + Z.of_nat (List.length (List.concat chunks)) < 2 ^ 31 ->
  receive sessFD (map ReadBytes chunks ++ reads) bytesread p
  = receive sessFD reads
            (bytesread + Z.of_nat (List.length (List.concat chunks)))
            (echo chunks p).
Proof.
  induction chunks as [|c cs IH]; intros reads bytesread p Hall H0 Hmax.
  - simpl. rewrite Z.add_0_r. reflexivity.
  - cbn [forallb] in Hall. apply andb_prop in Hall. destruct Hall as [Hc Hall].
    destruct (reads_on_last c Hc) as (c' & x & -> & Hx).
    cbn [List.concat] in Hmax. rewrite length_app in Hmax.
    cbn [map app]. rewrite receive_chunk by lia. cbv zeta. rewrite Hx.
    rewrite IH by (assumption || lia).
    cbn [List.concat]. rewrite (length_app (c' ++ [x])).
    unfold echo. cbn [fold_left]. f_equal. lia.
Qed.

(** X14: when the server closes the connection before any chunk has
    ended in NUL, the client takes the response as complete: it has read
    and written every chunk, counted all their bytes, and goes on as after
    a response that ended in the sentinel; nothing goes to the error
    stream. *)
Theorem X14_end_of_stream_completes_the_response sessFD chunks reads p :
  forallb reads_on chunks = true ->
  Z.of_nat (List.length (List.concat chunks)) < 2 ^ 31 ->
  receive sessFD (map ReadBytes chunks ++ ReadBytes [] :: reads) 0 p
  = (Complete, reads, Z.of_nat (List.length (List.concat chunks)),
     echo chunks p) /\
  stderr (echo chunks p) = stderr p /\
  stdout (echo chunks p) = stdout p ++ echoed chunks.
Proof.
  intros Hall Hmax. rewrite receive_reads_on by (assumption || lia).
  destruct (echo_frame chunks p) as (_ & He & _).
  rewrite echo_stdout. split; [reflexivity | auto].
Qed.

Lemma X14_end_of_stream_completes_the_response_witness :
  receive 3 (map ReadBytes [b "ab"; b "c"] ++ ReadBytes [] :: []) 0 start
  = (Complete, [], Z.of_nat (List.length (List.concat [b "ab"; b "c"])),
     echo [b "ab"; b "c"] start) /\
  stderr (echo [b "ab"; b "c"] start) = stderr start /\
  stdout (echo [b "ab"; b "c"] start)
  = stdout start ++ echoed [b "ab"; b "c"].
Proof.
  apply (X14_end_of_stream_completes_the_response 3 [b "ab"; b "c"] [] start).
  - reflexivity.
  - vm_compute. reflexivity.
Defined.

(** One turn of the outer loop, with the command it is about. *)
Lemma command_loop_turn sessFD (ni : bool) w writes (stdin : list string)
      reads (command : string) p :
  let cmd := if ni then command else hd EmptyString stdin in
  let p0 := if ni then p else cout "$ " p in
  String.eqb cmd "exit" = false -> 0 <= w ->
  command_loop sessFD ni (w :: writes) stdin reads command p
  = match receive sessFD reads 0 (sys (wire sessFD cmd) p0) with
    | (ReadFailed, _, _, q) => (LoopReturn EXIT_FAILURE, q)
    | (Waiting, _, _, q) => (LoopBlocked, q)
    | (Complete, reads', bytesread, q) =>
        let q := verboseprint
                   ("Received response from server of "
                    ++ decimal bytesread ++ " bytes" ++ nl)%string q in
        if ni then (LoopBreak, q)
        else command_loop sessFD ni writes (tl stdin) reads' cmd q
    end.
Proof.
  cbv zeta. intros Hcmd Hw. apply Z.ltb_ge in Hw.
  destruct ni; [|destruct stdin as [|line more]];
    cbn [command_loop negb hd tl] in *; rewrite Hcmd, Hw; reflexivity.
Qed.



(** A chunk that ends in NUL ends the response, whatever it holds. *)
Lemma receive_last sessFD c reads bytesread p :
  receive sessFD (ReadBytes (c ++ [NUL]) :: reads) bytesread p
  = (Complete, reads,
     wrap_int (bytesread + Z.of_nat (List.length (c ++ [NUL]))),
     cout nl (cout (text (cstr c)) p)).
Proof.
  cbn [receive].
  assert (Hlen : Z.of_nat (List.length (c ++ [NUL]))
                 = Z.of_nat (List.length c) + 1)
    by (rewrite length_app; cbn [List.length]; lia).
  assert ((Z.of_nat (List.length (c ++ [NUL])) <? 0) = false) as ->
      by (apply Z.ltb_ge; lia).
  assert ((Z.of_nat (List.length (c ++ [NUL])) =? 0) = false) as ->
      by (apply Z.eqb_neq; lia).
  rewrite !cstr_terminated.
  replace (Z.to_nat (Z.of_nat (List.length (c ++ [NUL])) - 1))
    with (List.length c) by lia.
  rewrite <- app_assoc. cbn [app]. rewrite nth_middle. reflexivity.
Qed.

Lemma command_loop_exit sessFD writes rest reads command p :
  command_loop sessFD false writes ("exit"%string :: rest) reads command p
  = (LoopBreak, cout "$ " p).
Proof. destruct writes; reflexivity. Qed.

Lemma interactive_turns sessFD turns : forall writes stdin reads command p,
  forallb turn_ok turns = true ->
  exists q command',
    command_loop sessFD false (map write_ret turns ++ writes)
                 (map typed turns ++ stdin)
                 (map (fun t => ReadBytes (answer t ++ [NUL])) turns ++ reads)
                 command p
    = command_loop sessFD false writes stdin reads command' q /\
    calls q = calls p ++ map (fun t => wire sessFD (typed t)) turns /\
    stderr q = stderr p.
Proof.
  induction turns as [|[[cmd w] payload] turns IH];
    intros writes stdin reads command p Hall.
  - exists p, command. simpl. rewrite app_nil_r. auto.
  - cbn [forallb] in Hall. apply andb_prop in Hall. destruct Hall as [Ht Hall].
    unfold turn_ok in Ht. cbn [typed write_ret fst snd] in Ht.
    apply andb_prop in Ht. destruct Ht as [Hcmd Hw].
    apply negb_true_iff in Hcmd. apply Z.leb_le in Hw.
    cbn [map app typed write_ret answer fst snd].
    rewrite (command_loop_turn sessFD false w _ (cmd :: _) _ command p Hcmd Hw).
    rewrite receive_last. cbv zeta iota. cbn [tl hd].
    destruct (IH writes stdin reads cmd
                 (verboseprint
                    ("Received response from server of "
                     ++ decimal (wrap_int
                                   (0 + Z.of_nat (List.length (payload ++ [NUL]))))
                     ++ " bytes" ++ nl)%string
                    (cout nl (cout (text (cstr payload))
                                   (sys (wire sessFD cmd) (cout "$ " p)))))
                 Hall) as (q & command' & -> & Hc & He).
    exists q, command'. split; [|split].
    + reflexivity.
    + rewrite Hc. autorewrite with frame. cbn [calls cout sys].
      rewrite <- app_assoc. reflexivity.
    + rewrite He. autorewrite with frame. reflexivity.
Qed.

(** X16: an interactive session of any number of commands, none of them
    [exit], each written without error and answered by a response that
    ends in NUL, then the line [exit]: the client has written every
    command followed by one NUL, in the order typed, and nothing for the
    last line, has shut the socket down and closed it, and exits with
    success. *)
Theorem X16_commands_go_out_in_order
        sessFD turns writes stdin reads command p :
  forallb turn_ok turns = true ->
  exists p',
    finish sessFD
      (command_loop sessFD false (map write_ret turns ++ writes)
         (map typed turns ++ "exit"%string :: stdin)
         (map (fun t => ReadBytes (answer t ++ [NUL])) turns ++ reads)
         command p)
    = (Exited EXIT_SUCCESS, p') /\
    calls p' = calls p ++ map (fun t => wire sessFD (typed t)) turns
               ++ [Shutdown sessFD SHUT_RDWR; Close sessFD] /\
    stderr p' = stderr p.
Proof.
  intros Hall.
  destruct (interactive_turns sessFD turns writes ("exit"%string :: stdin)
                              reads command p Hall)
    as (q & command' & -> & Hc & He).
  rewrite command_loop_exit. cbn [finish]. eexists. split; [reflexivity|].
  cbn [calls stderr sys]. autorewrite with frame. cbn [calls stderr cout].
  rewrite Hc, He, <- !app_assoc. split; reflexivity.
Qed.

Lemma X16_commands_go_out_in_order_witness :
  exists p',
    finish 3
      (command_loop 3 false
         (map write_ret [("ls"%string, 3, b "a"); ("pwd"%string, 4, b "/")]
          ++ [])
         (map typed [("ls"%string, 3, b "a"); ("pwd"%string, 4, b "/")]
          ++ "exit"%string :: [])
         (map (fun t => ReadBytes (answer t ++ [NUL]))
              [("ls"%string, 3, b "a"); ("pwd"%string, 4, b "/")] ++ [])
         EmptyString start)
    = (Exited EXIT_SUCCESS, p') /\
    calls p' = calls start
               ++ map (fun t => wire 3 (typed t))
                      [("ls"%string, 3, b "a"); ("pwd"%string, 4, b "/")]
               ++ [Shutdown 3 SHUT_RDWR; Close 3] /\
    stderr p' = stderr start.
Proof.
  apply (X16_commands_go_out_in_order 3
           [("ls"%string, 3, b "a"); ("pwd"%string, 4, b "/")] [] [] []
           EmptyString start).
  reflexivity.
Defined.

Lemma receive_calls sessFD reads : forall bytesread p,
  calls (snd (receive sessFD reads bytesread p)) = calls p.
Proof.
  induction reads as [|r rest IH]; intros bytesread p; [reflexivity|].
  cbn [receive]. destruct r as [e|data].
  - reflexivity.
  - destruct (Z.of_nat (List.length data) <? 0); [reflexivity|].
    destruct (Z.of_nat (List.length data) =? 0); [reflexivity|].
    destruct (Ascii.eqb _ NUL); [reflexivity|].
    rewrite IH. reflexivity.
Qed.

(** X18: in its loop the client calls nothing but [write] on the session
    socket, and what it writes is always a command, never [exit],
    followed by one NUL.  In non-interactive mode it writes at most
    once. *)
Theorem X18_only_commands_on_the_wire sessFD (ni : bool) writes :
  forall stdin reads command p,
  exists during,
    calls (snd (command_loop sessFD ni writes stdin reads command p))
    = calls p ++ during /\
    Forall (fun c => exists cmd,
                c = wire sessFD cmd /\ String.eqb cmd "exit" = false) during /\
    (ni = true -> (List.length during <= 1)%nat).
Proof.
  induction writes as [|w writes IH]; intros stdin reads command p.
  - exists []. rewrite app_nil_r.
    destruct ni; [|destruct stdin as [|line more]]; cbn [command_loop negb];
      match goal with
      | |- context [String.eqb ?c "exit"] => destruct (String.eqb c "exit")
      end; cbn [snd calls cout]; repeat split; auto.
  - set (cmd := if ni then command else hd EmptyString stdin).
    set (p0 := if ni then p else cout "$ " p).
    assert (Hp0 : calls p0 = calls p) by (unfold p0; destruct ni; reflexivity).
    destruct (String.eqb cmd "exit") eqn:Hcmd.
    { exists []. rewrite app_nil_r. unfold cmd in Hcmd.
      destruct ni; [|destruct stdin as [|line more]];
        cbn [command_loop negb hd] in *; rewrite Hcmd; cbn [snd calls cout];
        repeat split; auto. }
    assert (Hone : Forall (fun c => exists cmd0,
                               c = wire sessFD cmd0 /\
                               String.eqb cmd0 "exit" = false)
                          [wire sessFD cmd])
      by (constructor; [exists cmd; auto | constructor]).
    destruct (Z_lt_ge_dec w 0) as [Hw|Hw].
    { exists [wire sessFD cmd]. apply Z.ltb_lt in Hw. unfold cmd in *.
      destruct ni; [|destruct stdin as [|line more]];
        cbn [command_loop negb hd] in *; rewrite Hcmd, Hw;
        cbn [snd calls cout sys perror cerr]; repeat split; auto. }
    rewrite (command_loop_turn sessFD ni w writes stdin reads command p Hcmd)
      by lia.
    fold cmd p0.
    pose proof (receive_calls sessFD reads 0 (sys (wire sessFD cmd) p0)) as Hr.
    destruct (receive sessFD reads 0 (sys (wire sessFD cmd) p0))
      as [[[[| |] reads'] bytesread] q]; cbn [snd] in Hr;
      cbn [calls sys] in Hr; rewrite Hp0 in Hr.
    + exists [wire sessFD cmd]. cbn [snd]. repeat split; auto.
    + destruct ni.
      * exists [wire sessFD cmd]. cbn [snd]. autorewrite with frame.
        repeat split; auto.
      * destruct (IH (tl stdin) reads' cmd
                     (verboseprint
                        ("Received response from server of "
                         ++ decimal bytesread ++ " bytes" ++ nl)%string q))
          as (during & Hc & Hf & _).
        exists (wire sessFD cmd :: during). cbv zeta.
        rewrite Hc. autorewrite with frame. rewrite Hr, <- app_assoc.
        split; [reflexivity|]. split; [|discriminate].
        constructor; [exists cmd; auto | exact Hf].
    + exists [wire sessFD cmd]. cbn [snd]. repeat split; auto.
Qed.

Lemma connect_first_spec env addr : forall i p,
  match connect_first env addr i p with
  | (None, p') =>
      forallb (connect_fails env) addr = true /\
      calls p' = calls p ++ flat_map (connect_attempt env) addr /\
      stderr p' = stderr p
  | (Some sessFD, p') =>
      exists before a after,
        addr = before ++ a :: after /\
        forallb (connect_fails env) before = true /\
        connect_fails env a = false /\
        sessFD = socket env a /\
        calls p' = calls p ++ flat_map (connect_attempt env) before
                   ++ [Socket a; Connect sessFD a] /\
        stderr p' = stderr p
  end.
Proof.
  induction addr as [|a next IH]; intros i p.
  - simpl. rewrite app_nil_r. auto.
  - cbn [connect_first].
    destruct (socket env a =? -1) eqn:Hsock.
    + assert (Hfa : connect_fails env a = true)
        by (unfold connect_fails; rewrite Hsock; reflexivity).
      assert (Hat : connect_attempt env a = [Socket a])
        by (unfold connect_attempt; rewrite Hsock; reflexivity).
      specialize (IH (wrap_int (i + 1)) (sys (Socket a) p)).
      destruct (connect_first env next _ (sys (Socket a) p)) as [[fd|] p'].
      * destruct IH as (before & a' & after & -> & Hb & Ha & Hfd & Hc & He).
        exists (a :: before), a', after.
        cbn [forallb flat_map]. rewrite Hfa, Hat, Hc. simpl.
        rewrite <- !app_assoc. repeat split; auto.
      * destruct IH as (Hf & Hc & He).
        cbn [forallb flat_map]. rewrite Hfa, Hat, Hc. simpl.
        rewrite <- app_assoc. repeat split; auto.
    + destruct (negb (connect env (socket env a) a =? -1)) eqn:Hconn.
      * apply negb_true_iff in Hconn.
        exists [], a, next. unfold connect_fails. rewrite Hsock, Hconn.
        cbn [calls stderr sys]. autorewrite with frame.
        cbn [calls stderr sys]. autorewrite with frame.
        simpl. rewrite <- app_assoc. repeat split; reflexivity.
      * apply negb_false_iff in Hconn.
        assert (Hfa : connect_fails env a = true)
          by (unfold connect_fails; rewrite Hsock, Hconn; reflexivity).
        assert (Hat : connect_attempt env a
                      = [Socket a; Connect (socket env a) a;
                         Close (socket env a)])
          by (unfold connect_attempt; rewrite Hsock; reflexivity).
        match goal with
        | |- context [connect_first env next ?j ?q] =>
            specialize (IH j q);
            assert (Hq : calls q = calls p ++ connect_attempt env a
                         /\ stderr q = stderr p)
              by (rewrite Hat; cbn [calls stderr sys];
                  autorewrite with frame; cbn [calls stderr sys];
                  autorewrite with frame; cbn [calls stderr sys];
                  rewrite <- !app_assoc; split; reflexivity);
            destruct (connect_first env next j q) as [[fd|] p']
        end.
        -- destruct IH as (before & a' & after & -> & Hb & Ha & Hfd & Hc & He).
           destruct Hq as [Hq1 Hq2].
           exists (a :: before), a', after.
           cbn [forallb flat_map]. rewrite Hfa, Hc, Hq1, He, Hq2.
           rewrite <- !app_assoc. repeat split; auto.
        -- destruct IH as (Hf & Hc & He). destruct Hq as [Hq1 Hq2].
           cbn [forallb flat_map]. rewrite Hfa, Hc, Hq1, He, Hq2.
           rewrite <- !app_assoc. repeat split; auto.
Qed.

(** X17: the client takes the first address on which [socket] and
    [connect] both succeed and tries no later one; for every address
    before it, it has called [socket] and, when that gave a descriptor,
    [connect] and then [close] on that descriptor.  When no address will
    do, it has gone through all of them in this way and holds no
    descriptor. *)
Theorem X17_first_address_that_connects env addr i p :
  match connect_first env addr i p with
  | (None, p') =>
      forallb (connect_fails env) addr = true /\
      calls p' = calls p ++ flat_map (connect_attempt env) addr
  | (Some sessFD, p') =>
      exists before a after,
        addr = before ++ a :: after /\
        forallb (connect_fails env) before = true /\
        connect_fails env a = false /\
        sessFD = socket env a /\
        calls p' = calls p ++ flat_map (connect_attempt env) before
                   ++ [Socket a; Connect sessFD a]
  end.
Proof.
  pose proof (connect_first_spec env addr i p) as H.
  destruct (connect_first env addr i p) as [[fd|] p'].
  - destruct H as (before & a & after & H1 & H2 & H3 & H4 & H5 & _).
    exists before, a, after. auto.
  - destruct H as (H1 & H2 & _). auto.
Qed.

Lemma client_parse_options_calls argv0 opts : forall s p,
  match parse_options argv0 opts s p with
  | Go _ p' | Return _ p' | Abort p' => calls p' = calls p
  end.
Proof.
  induction opts as [|[opt optarg] rest IH]; intros s p; [reflexivity|].
  cbn [parse_options].
  destruct (Ascii.eqb opt "h"); [apply IH|].
  destruct (Ascii.eqb opt "p").
  { destruct (strtoul optarg (errno p)) as [portAsLong e].
    destruct (_ || _); [reflexivity | apply (IH _ (set_errno e p))]. }
  destruct (Ascii.eqb opt "c"); [apply IH|].
  destruct (Ascii.eqb opt "v"); [apply (IH s (set_verboseOutput true p))|].
  destruct (Ascii.eqb opt "?"); [reflexivity|].
  destruct (Ascii.eqb opt ":"); reflexivity.
Qed.

Lemma client_parse_options_stderr argv0 opts : forall s p s' p',
  parse_options argv0 opts s p = Go s' p' -> stderr p' = stderr p.
Proof.
  induction opts as [|[opt optarg] rest IH]; intros s p s' p' H.
  - injection H as _ <-. reflexivity.
  - cbn [parse_options] in H.
    destruct (Ascii.eqb opt "h"); [exact (IH _ _ _ _ H)|].
    destruct (Ascii.eqb opt "p").
    { destruct (strtoul optarg (errno p)) as [portAsLong e].
      destruct (_ || _); [discriminate | exact (IH _ _ _ _ H)]. }
    destruct (Ascii.eqb opt "c"); [exact (IH _ _ _ _ H)|].
    destruct (Ascii.eqb opt "v"); [exact (IH _ _ _ _ H)|].
    destruct (Ascii.eqb opt "?"); [discriminate|].
    destruct (Ascii.eqb opt ":"); discriminate.
Qed.

(** X19: when the options are accepted and the host resolves but no
    address can be connected to, the client exits with failure after the
    line that names host and port on the error stream; it has closed
    every socket it opened and has written to none. *)
Theorem X19_no_connection_no_session env inp s p0 addr :
  2 <= argc inp ->
  parse_options (argv0 inp) (options inp)
                (mkSettings "127.0.0.1" "8888" EmptyString false)
                (set_verboseOutput true start)
  = Go s p0 ->
  getaddrinfo env (host s) (service s) = (0, addr) ->
  forallb (connect_fails env) addr = true ->
  exists p',
    main env inp = (Exited EXIT_FAILURE, p') /\
    calls p' = flat_map (connect_attempt env) addr /\
    stderr p' = [("Could not connect to " ++ host s ++ ":" ++ service s
                  ++ nl)%string].
Proof.
  intros Hargc Hparse Hres Hall. unfold main.
  assert ((argc inp <? 2) = false) as -> by (apply Z.ltb_ge; lia).
  pose proof (client_parse_options_calls (argv0 inp) (options inp)
                (mkSettings "127.0.0.1" "8888" EmptyString false)
                (set_verboseOutput true start)) as Hc0.
  pose proof (client_parse_options_stderr _ _ _ _ _ _ Hparse) as He0.
  rewrite Hparse in *. rewrite Hres. cbn [negb Z.eqb].
  match goal with
  | |- context [connect_first env addr 1 ?q] =>
      pose proof (connect_first_spec env addr 1 q) as Hc;
      assert (Hq : calls q = [] /\ stderr q = [])
        by (autorewrite with frame; split; assumption);
      destruct (connect_first env addr 1 q) as [[fd|] p1]
  end.
  - destruct Hc as (before & a & after & -> & _ & Ha & _).
    rewrite forallb_app in Hall. cbn [forallb] in Hall. rewrite Ha in Hall.
    rewrite andb_false_r in Hall. discriminate.
  - destruct Hc as (_ & Hc & He). destruct Hq as [Hq1 Hq2].
    eexists. split; [reflexivity|]. cbn [calls stderr cerr].
    rewrite Hc, He, Hq1, Hq2. split; reflexivity.
Qed.

Lemma X19_no_connection_no_session_witness :
  let env := mkEnv (fun h s => (0, [mkAddr h 8888; mkAddr h 8889]))
                   (fun a => if ai_port a =? 8888 then -1 else 3)
                   (fun _ _ => -1) in
  let inp := mkInput 3 "client" [("c"%char, "ls"%string)] [] [] [] in
  exists p',
    main env inp = (Exited EXIT_FAILURE, p') /\
    calls p' = flat_map (connect_attempt env)
                        [mkAddr "127.0.0.1" 8888; mkAddr "127.0.0.1" 8889] /\
    stderr p' = [("Could not connect to "
                  ++ host (mkSettings "127.0.0.1" "8888" "ls" true) ++ ":"
                  ++ service (mkSettings "127.0.0.1" "8888" "ls" true)
                  ++ nl)%string].
Proof.
  cbv zeta.
  apply (X19_no_connection_no_session
           (mkEnv (fun h s => (0, [mkAddr h 8888; mkAddr h 8889]))
                  (fun a => if ai_port a =? 8888 then -1 else 3)
                  (fun _ _ => -1))
           (mkInput 3 "client" [("c"%char, "ls"%string)] [] [] [])
           (mkSettings "127.0.0.1" "8888" "ls" true)
           (set_verboseOutput true start)).
  - vm_compute. discriminate.
  - reflexivity.
  - reflexivity.
  - reflexivity.
Defined.

End ClientSessions.

(** ** The two ends together *)

Section Exchange.

Import Server.

(** X20: one command from end to end.  A client started with [-c] writes
    the command and one NUL to its socket and nothing else; the worker
    that receives these bytes in one piece runs exactly that command and
    sends, for an output without NUL, the output and one NUL, stays in
    its loop and prints no error (whatever follows in the session comes
    after these two calls); the client that reads this response in one
    piece ends its wait, counts the response with its sentinel, writes
    the output followed by a newline and leaves its loop. *)
Theorem X20_one_command_round_trip
        clientFD sessFD command output w writes stdin rest revents reads p q :
  ~ In NUL (b command) -> ~ In NUL output ->
  Z.of_nat (List.length output) + 1 < 2 ^ 31 ->
  String.eqb command "exit" = false -> 0 <= w ->
  let request_bytes := b command ++ [NUL] in
  let response_bytes := output ++ [NUL] in
  let worker :=
    request_loop sessFD [request POLLIN request_bytes output] revents p in
  let client :=
    Client.command_loop clientFD true (w :: writes) stdin
      (Client.ReadBytes response_bytes :: reads) command q in
  fst client = Client.LoopBreak /\
  calls (snd client) = calls q ++ [Write clientFD request_bytes] /\
  stdout (snd client)
  = stdout q ++ [text output; nl]
    ++ (if verboseOutput q
        then [("Received response from server of "
               ++ decimal (Z.of_nat (List.length output) + 1)
               ++ " bytes" ++ nl)%string]
        else []) /\
  fst worker = None /\
  calls (snd worker)
  = calls p ++ [Popen (b command); Send sessFD response_bytes] /\
  stderr (snd worker) = stderr p /\
  (exists during,
     calls (snd (request_loop sessFD
                   (request POLLIN request_bytes output :: rest) revents p))
     = calls p ++ Popen (b command) :: Send sessFD response_bytes :: during) /\
  Client.receive clientFD (Client.ReadBytes response_bytes :: reads) 0 q
  = (Client.Complete, reads, Z.of_nat (List.length output) + 1,
     cout nl (cout (text output) q)).
Proof.
  intros Hcmd Hout Hmax Hexit Hw. cbv zeta.
  assert (Hne : b command ++ [NUL] <> [])
    by (destruct (b command); discriminate).
  assert (Hrecv : forall q0,
    Client.receive clientFD (Client.ReadBytes (output ++ [NUL]) :: reads) 0 q0
    = (Client.Complete, reads, Z.of_nat (List.length output) + 1,
       cout nl (cout (text output) q0))).
  { intros q0.
    rewrite receive_last, wrap_int_small, (cstr_sentinel_free _ Hout)
      by (rewrite length_app; cbn [List.length]; lia).
    rewrite length_app. cbn [List.length]. do 2 f_equal. lia. }
  assert (Hserve : forall rest', exists p',
    request_loop sessFD (request POLLIN (b command ++ [NUL]) output :: rest')
                 revents p
    = request_loop sessFD rest' POLLIN p' /\
    calls p' = calls p ++ [Popen (b command); Send sessFD (output ++ [NUL])] /\
    stderr p' = stderr p).
  { intros rest'.
    destruct (request_loop_serves sessFD (b command ++ [NUL]) output rest'
                                  revents p Hne) as (p' & Hrun & Hc & He & _).
    rewrite cstr_terminated, (cstr_sentinel_free _ Hcmd),
      (captured_sentinel_free _ Hout) in Hc.
    exists p'. auto. }
  pose proof (command_loop_turn clientFD true w writes stdin
                (Client.ReadBytes (output ++ [NUL]) :: reads) command q
                Hexit Hw) as Hturn.
  cbv zeta in Hturn. cbn match in Hturn. rewrite Hrecv in Hturn.
  rewrite Hturn. cbn [fst snd].
  destruct (Hserve []) as (p1 & Hrun1 & Hc1 & He1).
  rewrite Hrun1.
  change (request_loop sessFD [] POLLIN p1) with (@None loop_exit, p1).
  cbn [fst snd].
  split; [reflexivity|].
  split.
  { unfold verboseprint, wire. destruct (verboseOutput _); reflexivity. }
  split.
  { unfold verboseprint, wire. cbn [verboseOutput cout sys].
    destruct (verboseOutput q); cbn [negb stdout cout sys];
      rewrite <- ?app_assoc; reflexivity. }
  split; [reflexivity|].
  split; [exact Hc1|].
  split; [exact He1|].
  split; [|apply Hrecv].
  destruct (Hserve rest) as (p2 & Hrun2 & Hc2 & _). rewrite Hrun2.
  destruct (request_loop_calls sessFD rest POLLIN p2) as (_ & during & Hd & _).
  exists during. rewrite Hd, Hc2, <- app_assoc. reflexivity.
Qed.

Lemma X20_one_command_round_trip_witness :
  let request_bytes := b "echo 42" ++ [NUL] in
  let response_bytes := echo_output ++ [NUL] in
  let worker :=
    request_loop 4 [request POLLIN request_bytes echo_output] 0 start in
  let client :=
    Client.command_loop 3 true (8 :: []) []
      (Client.ReadBytes response_bytes :: []) "echo 42" Client.start in
  fst client = Client.LoopBreak /\
  calls (snd client) = calls Client.start ++ [Write 3 request_bytes] /\
  stdout (snd client)
  = stdout Client.start ++ [text echo_output; nl]
    ++ (if verboseOutput Client.start
        then [("Received response from server of "
               ++ decimal (Z.of_nat (List.length echo_output) + 1)
               ++ " bytes" ++ nl)%string]
        else []) /\
  fst worker = None /\
  calls (snd worker)
  = calls start ++ [Popen (b "echo 42"); Send 4 response_bytes] /\
  stderr (snd worker) = stderr start /\
  (exists during,
     calls (snd (request_loop 4
                   (request POLLIN request_bytes echo_output :: []) 0 start))
     = calls start ++ Popen (b "echo 42") :: Send 4 response_bytes :: during) /\
  Client.receive 3 (Client.ReadBytes response_bytes :: []) 0 Client.start
  = (Client.Complete, [], Z.of_nat (List.length echo_output) + 1,
     cout nl (cout (text echo_output) Client.start)).
Proof.
  apply (X20_one_command_round_trip 3 4 "echo 42" echo_output 8 [] [] [] 0 []
           start Client.start).
  - vm_compute. intuition discriminate.
  - vm_compute. intuition discriminate.
  - vm_compute. reflexivity.
  - reflexivity.
  - lia.
Defined.

(** X21: a session in which nothing arrives is never ended by the
    worker: through any number of waits that time out or are cut short by
    a signal it stays in its loop, calls nothing and prints no error. *)
Theorem X21_idle_session_stays_open sessFD host service events p :
  Forall idle events ->
  fst (handle_request sessFD host service events p) = None /\
  calls (snd (handle_request sessFD host service events p)) = calls p /\
  stderr (snd (handle_request sessFD host service events p)) = stderr p.
Proof.
  intros Hidle. unfold handle_request.
  destruct (request_loop_stderr_quiet sessFD events 0 p Hidle)
    as (Hf & Hc & He & _).
  destruct (request_loop sessFD events 0 p) as [[why|] q];
    [discriminate | auto].
Qed.

Lemma X21_idle_session_stays_open_witness :
  let events := [mkSession TimedOut (RecvBytes []) (PopenPipe []) (SendCount 0);
                 mkSession Interrupted (RecvBytes []) (PopenPipe [])
                           (SendCount 0)] in
  fst (handle_request 4 "localhost" "40000" events start) = None /\
  calls (snd (handle_request 4 "localhost" "40000" events start))
  = calls start /\
  stderr (snd (handle_request 4 "localhost" "40000" events start))
  = stderr start.
Proof.
  apply (X21_idle_session_stays_open 4 "localhost" "40000"
           [mkSession TimedOut (RecvBytes []) (PopenPipe []) (SendCount 0);
            mkSession Interrupted (RecvBytes []) (PopenPipe []) (SendCount 0)]
           start).
  constructor; [left; reflexivity|].
  constructor; [right; reflexivity | constructor].
Defined.

End Exchange.

(** ** The output of a command, line by line *)

Section Lines.

Import Server.

Lemma fgets_read_line k : forall line rest,
  ~ In LF line -> (List.length line < k)%nat ->
  fgets_read k (line ++ LF :: rest) = (line ++ [LF], mkFILE rest false).
Proof.
  induction k as [|k IH]; intros line rest Hlf Hlen; [inversion Hlen|].
  destruct line as [|c line]; cbn [app fgets_read].
  - rewrite (proj2 (Ascii.eqb_eq LF LF) eq_refl). reflexivity.
  - assert (Ascii.eqb c LF = false) as ->
        by (apply Ascii.eqb_neq; intros ->; apply Hlf; left; reflexivity).
    rewrite IH.
    + reflexivity.
    + intros Hin. apply Hlf. right. exact Hin.
    + cbn [List.length] in Hlen. lia.
Qed.

Lemma read_pipe_more_fuel fuel : forall pipe result r fuel',
  read_pipe fuel pipe result = Some r -> (fuel <= fuel')%nat ->
  read_pipe fuel' pipe result = Some r.
Proof.
  induction fuel as [|fuel IH]; intros pipe result r fuel' H Hle.
  - cbn [read_pipe] in H. destruct (feof pipe) eqn:He; [|discriminate].
    destruct fuel'; cbn [read_pipe]; rewrite He; exact H.
  - destruct fuel' as [|fuel']; [inversion Hle|].
    cbn [read_pipe] in *. destruct (feof pipe); [exact H|].
    destruct (fgets BUFFERSIZE pipe) as [[buffer|] pipe'];
      apply (IH _ _ _ _ H); lia.
Qed.

(** What the loop appends does not depend on what [result] holds. *)
Lemma read_pipe_from fuel : forall pipe result,
  read_pipe fuel pipe result
  = option_map (app result) (read_pipe fuel pipe []).
Proof.
  induction fuel as [|fuel IH]; intros pipe result.
  - cbn [read_pipe]. destruct (feof pipe); [|reflexivity].
    cbn [option_map]. now rewrite app_nil_r.
  - cbn [read_pipe]. destruct (feof pipe).
    { cbn [option_map]. now rewrite app_nil_r. }
    destruct (fgets BUFFERSIZE pipe) as [[buffer|] pipe']; [|apply IH].
    rewrite (IH pipe' (result ++ cstr buffer)), (IH pipe' ([] ++ cstr buffer)).
    destruct (read_pipe fuel pipe' []) as [r|]; [|reflexivity].
    cbn [option_map app]. now rewrite app_assoc.
Qed.

Lemma captured_line line rest :
  ~ In LF line -> Z.of_nat (List.length line) < BUFFERSIZE - 1 ->
  captured (line ++ LF :: rest) = cstr (line ++ [LF]) ++ captured rest.
Proof.
  intros Hlf Hlen. unfold captured at 1. cbn [read_pipe feof f_eof].
  unfold fgets. cbn [f_rest].
  rewrite fgets_read_line by (assumption || lia).
  destruct (line ++ [LF]) as [|c l] eqn:Hline.
  { destruct line; discriminate. }
  rewrite <- Hline. cbn [app].
  destruct (read_pipe_ends rest) as (r & Hr).
  assert (Hr' : read_pipe (List.length (line ++ LF :: rest))
                          (mkFILE rest false) [] = Some r).
  { apply (read_pipe_more_fuel _ _ _ _ _ Hr).
    rewrite length_app. cbn [List.length]. lia. }
  rewrite read_pipe_from, Hr'. cbn [option_map].
  unfold captured. rewrite Hr. reflexivity.
Qed.

(** X22: the worker captures the output of a command line by line.  A
    line shorter than 511 bytes adds to the response the bytes before its
    first NUL; so a line that holds no NUL is sent whole, and of a line
    that holds one only what comes before the NUL is sent: the rest of the
    line, its newline included, is lost, and the next line follows at
    once. *)
Theorem X22_each_line_is_cut_at_its_first_nul line rest :
  ~ In LF line -> Z.of_nat (List.length line) < BUFFERSIZE - 1 ->
  captured (line ++ LF :: rest) = cstr (line ++ [LF]) ++ captured rest /\
  (~ In NUL line -> captured (line ++ LF :: rest)
                   = line ++ LF :: captured rest) /\
  (forall kept lost,
      line = kept ++ NUL :: lost -> ~ In NUL kept ->
      captured (line ++ LF :: rest) = kept ++ captured rest).
Proof.
  intros Hlf Hlen. rewrite (captured_line line rest Hlf Hlen).
  split; [reflexivity|]. split.
  - intros Hfree. rewrite cstr_sentinel_free.
    + rewrite <- app_assoc. reflexivity.
    + intros Hin. apply in_app_or in Hin. destruct Hin as [Hin|[Hin|[]]].
      * exact (Hfree Hin).
      * discriminate Hin.
  - intros kept lost -> Hkept.
    rewrite <- app_assoc. cbn [app].
    rewrite cstr_terminated, (cstr_sentinel_free _ Hkept). reflexivity.
Qed.

Lemma X22_each_line_is_cut_at_its_first_nul_witness :
  let line := b "a" ++ NUL :: b "b" in
  let rest := b "c" in
  captured (line ++ LF :: rest) = cstr (line ++ [LF]) ++ captured rest /\
  (~ In NUL line -> captured (line ++ LF :: rest)
                   = line ++ LF :: captured rest) /\
  (forall kept lost,
      line = kept ++ NUL :: lost -> ~ In NUL kept ->
      captured (line ++ LF :: rest) = kept ++ captured rest).
Proof.
  apply (X22_each_line_is_cut_at_its_first_nul (b "a" ++ NUL :: b "b") (b "c")).
  - vm_compute. intuition discriminate.
  - vm_compute. reflexivity.
Defined.

End Lines.
